(** * Momentum trading algorithm: formation, ranking and long/short portfolios

    A shallow embedding of [SEPH-GHAFARZADEH-FINAL.py].

    Numbers.  The script computes on IEEE doubles held in pandas objects.
    The embedding idealises a finite double as an exact rational ([Qc],
    canonical rationals, so that equality is Leibniz equality) and pandas'
    missing value NaN as [None].  Infinities are not represented: a division
    by zero, which yields NaN or an infinity in pandas, is missing here.

    Tables.  A [Series] is the list of its values in date order; the date
    index is the position in the list.  A [DataFrame] is the list of its date
    rows, each row holding one value per ticker in column order.  The three
    inputs share one date index.  Reading and writing CSV files, printing
    and plotting are left out. *)

From Stdlib Require Import List Arith ZArith Lia Bool QArith Qcanon Permutation.
Import ListNotations.

Local Open Scope Qc_scope.

(** ** Values *)

Definition val := option Qc.
Definition NaN : val := None.

Definition nat2Qc (n : nat) : Qc := Q2Qc (inject_Z (Z.of_nat n)).
Definition Qc_fifth : Qc := Q2Qc (1 # 5).
Definition Qc_five : Qc := Q2Qc 5.
Definition Qc_half : Qc := Q2Qc (1 # 2).

Definition Qcleb (x y : Qc) : bool :=
  match x ?= y with Gt => false | _ => true end.
Definition Qcltb (x y : Qc) : bool :=
  match x ?= y with Lt => true | _ => false end.
Definition Qceqb (x y : Qc) : bool :=
  match x ?= y with Eq => true | _ => false end.

(** Arithmetic propagates a missing operand. *)
Definition vlift2 (f : Qc -> Qc -> Qc) (a b : val) : val :=
  match a, b with
  | Some x, Some y => Some (f x y)
  | _, _ => None
  end.

Definition vadd := vlift2 Qcplus.
Definition vsub := vlift2 Qcminus.
Definition vmul := vlift2 Qcmult.

Definition vdiv (a b : val) : val :=
  match a, b with
  | Some x, Some y => if Qceqb y 0 then None else Some (x / y)
  | _, _ => None
  end.

(** Comparisons with a missing operand are false. *)
Definition vcmp (f : Qc -> Qc -> bool) (a b : val) : bool :=
  match a, b with
  | Some x, Some y => f x y
  | _, _ => false
  end.

Definition vle := vcmp Qcleb.
Definition vge := vcmp (fun x y => Qcleb y x).
Definition veq := vcmp Qceqb.

(** A boolean used as a number: [True] is 1 and [False] is 0. *)
Definition bool2val (b : bool) : val := Some (if b then 1 else 0).

(** ** Series and frames *)

Definition Series := list val.
Definition DataFrame := list (list val).

Fixpoint zip_with {A B C : Type} (f : A -> B -> C) (l : list A) (m : list B)
  : list C :=
  match l, m with
  | x :: l', y :: m' => f x y :: zip_with f l' m'
  | _, _ => []
  end.

Definition at_ (s : Series) (t : nat) : val := nth t s NaN.
Definition row_at (df : DataFrame) (t : nat) : list val := nth t df [].
Definition cell (df : DataFrame) (t i : nat) : val := at_ (row_at df t) i.

Definition ncols (df : DataFrame) : nat :=
  match df with [] => O | r :: _ => length r end.

Definition column (df : DataFrame) (i : nat) : Series :=
  map (fun r => at_ r i) df.

Definition of_columns (T : nat) (cols : list Series) : DataFrame :=
  map (fun t => map (fun c => at_ c t) cols) (seq 0 T).

(** A column-wise operation: every ticker's column is transformed on its own. *)
Definition apply_columns (f : Series -> Series) (df : DataFrame) : DataFrame :=
  of_columns (length df) (map (fun i => f (column df i)) (seq 0 (ncols df))).

(** [Series.sum()], [Series.prod()]: missing values are skipped, and the sum
    of nothing is 0. *)
Definition present (s : list val) : list Qc :=
  flat_map (fun v => match v with Some x => [x] | None => [] end) s.

Definition Qcsum (l : list Qc) : Qc := fold_left Qcplus l 0.
Definition Qcprod (l : list Qc) : Qc := fold_left Qcmult l 1.

Definition vsum (s : list val) : val := Some (Qcsum (present s)).

(** [Series.mean()], skipping missing values; missing when none is left. *)
Definition vmean (s : list val) : val :=
  match present s with
  | [] => None
  | x :: l => Some (Qcsum (x :: l) / nat2Qc (length (x :: l)))
  end.

Definition Qcmax (x y : Qc) : Qc := if Qcleb x y then y else x.
Definition Qcmin (x y : Qc) : Qc := if Qcleb x y then x else y.

(** [max()] and [min()], skipping missing values; missing when none is left. *)
Definition vmax (s : list val) : val :=
  match present s with
  | [] => None
  | x :: l => Some (fold_left Qcmax l x)
  end.

Definition vmin (s : list val) : val :=
  match present s with
  | [] => None
  | x :: l => Some (fold_left Qcmin l x)
  end.

(** [ffill()]: a missing value takes the last value seen above it. *)
Fixpoint ffill_from (last : val) (s : Series) : Series :=
  match s with
  | [] => []
  | None :: s' => last :: ffill_from last s'
  | Some x :: s' => Some x :: ffill_from (Some x) s'
  end.

Definition series_ffill (s : Series) : Series := ffill_from NaN s.

(** [shift(1)] and [shift(-w)] keep the index and fill with missing. *)
Definition series_shift1 (s : Series) : Series :=
  map (fun t => match t with O => NaN | S t' => at_ s t' end)
      (seq 0 (length s)).

Definition series_shift_back (w : nat) (s : Series) : Series :=
  map (fun t => at_ s (t + w)) (seq 0 (length s)).

(** [pct_change()]: the default fill method pads forward first, then
    divides every value by the one before it and subtracts 1. *)
Definition series_pct_change (s : Series) : Series :=
  let p := series_ffill s in
  map (fun q => vsub q (Some 1)) (zip_with vdiv p (series_shift1 p)).

(** Subtraction of two series over the index of the left one. *)
Definition series_sub (a b : Series) : Series :=
  map (fun t => vsub (at_ a t) (at_ b t)) (seq 0 (length a)).

(** [rolling(w).apply(f, raw=True)]: the window of [w] observations ending at
    [t]; with fewer than [w] non-missing observations the result is missing
    and [f] is not called. *)
Definition window (w : nat) (s : Series) (t : nat) : list val :=
  firstn w (skipn (S t - w) s).

Definition rolling_at (w : nat) (f : list Qc -> Qc) (s : Series) (t : nat)
  : val :=
  if (w <=? S t) && (length (present (window w s t)) =? w)
  then Some (f (present (window w s t)))
  else None.

Definition series_rolling_apply (w : nat) (f : list Qc -> Qc) (s : Series)
  : Series :=
  map (rolling_at w f s) (seq 0 (length s)).

(** [cumprod()]: the running product in one pass from the first date; a
    missing value stays missing and leaves the running product as it is. *)
Fixpoint cumprod_from (acc : Qc) (s : Series) : Series :=
  match s with
  | [] => []
  | None :: s' => None :: cumprod_from acc s'
  | Some x :: s' => Some (acc * x) :: cumprod_from (acc * x) s'
  end.

Definition cumprod (s : Series) : Series := cumprod_from 1 s.

(** [rank(axis=1, ascending=False)] with pandas' defaults: the method is
    [average] and missing values keep no rank.  A value preceded by [g]
    larger values and tied in a group of [e] gets the mean of the places
    [g+1 .. g+e], that is [g + (e+1)/2]. *)
Definition count_gt (x : Qc) (l : list Qc) : nat :=
  length (filter (fun y => Qcltb x y) l).
Definition count_eq (x : Qc) (l : list Qc) : nat :=
  length (filter (fun y => Qceqb x y) l).

Definition average_rank (l : list Qc) (x : Qc) : Qc :=
  nat2Qc (count_gt x l) + (nat2Qc (count_eq x l) + 1) * Qc_half.

Definition rank_row (r : list val) : list val :=
  map (option_map (average_rank (present r))) r.

Definition rank_axis1 (df : DataFrame) : DataFrame := map rank_row df.
Definition max_axis1 (df : DataFrame) : Series := map vmax df.

(** Dictionaries keyed by window length, in insertion order. *)
Definition Dict := list (nat * DataFrame).

Fixpoint dict_get (d : Dict) (k : nat) : option DataFrame :=
  match d with
  | [] => None
  | (k', df) :: d' => if k' =? k then Some df else dict_get d' k
  end.

(** The script only reads keys that its loops have stored; the empty frame
    stands for the [KeyError] of any other key. *)
Definition dict_at (d : Dict) (k : nat) : DataFrame :=
  match dict_get d k with Some df => df | None => [] end.

(** ** Frame operations of the strategy expression *)

(** [df <= c] *)
Definition df_le_const (df : DataFrame) (c : Qc) : list (list bool) :=
  map (map (fun v => vle v (Some c))) df.

(** [df.eq(s, axis=0)]: every row is compared with the series value of its
    date. *)
Definition df_eq_axis0 (df : DataFrame) (s : Series) : list (list bool) :=
  zip_with (fun r m => map (fun v => veq v m) r) df s.

(** [df >= mask], the right operand being a frame of booleans. *)
Definition df_ge_bool (df : DataFrame) (m : list (list bool))
  : list (list bool) :=
  zip_with (zip_with (fun v b => vge v (bool2val b))) df m.

(** [df[mask]]: the values where the mask holds, missing elsewhere. *)
Definition df_where (df : DataFrame) (m : list (list bool)) : DataFrame :=
  zip_with (zip_with (fun v (b : bool) => if b then v else NaN)) df m.

(** [df.apply(f, axis=1)] *)
Definition apply_axis1 (f : list val -> val) (df : DataFrame) : Series :=
  map f df.

Definition scale (c : Qc) (r : list val) : list val := map (vmul (Some c)) r.
Definition series_add (a b : Series) : Series := zip_with vadd a b.
Definition series_sub_const (s : Series) (c : Qc) : Series :=
  map (fun v => vsub v (Some c)) s.
Definition series_add_const (c : Qc) (s : Series) : Series :=
  map (fun v => vadd (Some c) v) s.

(** The lambda of the formation loop: [(1+r).prod() - 1]. *)
Definition compound (r : list Qc) : Qc := Qcprod (map (Qcplus 1) r) - 1.

(** The masks of the two buckets, as the strategy expression writes them. *)
Definition long_mask (ranks : DataFrame) : list (list bool) :=
  df_le_const ranks Qc_five.

Definition short_mask (ranks : DataFrame) (fmax : Series) : list (list bool) :=
  df_ge_bool ranks (df_eq_axis0 ranks (series_sub_const fmax Qc_five)).

(** The expression shared by the nine strategies. *)
Definition long_short (ranks : DataFrame) (fmax : Series) (h : DataFrame)
  : Series :=
  series_add
    (apply_axis1 (fun r => vsum (scale Qc_fifth r))
       (df_where h (long_mask ranks)))
    (apply_axis1 (fun r => vsum (scale (- Qc_fifth) r))
       (df_where h (short_mask ranks fmax))).

(** [(1 + s).cumprod() - 1] *)
Definition cumrets (s : Series) : Series :=
  series_sub_const (cumprod (series_add_const 1 s)) 1.

(** [np.average]: the plain mean, missing if any value is or none is there. *)
Definition np_average (s : Series) : val :=
  if (length (present s) =? length s) && negb (length s =? 0)
  then Some (Qcsum (present s) / nat2Qc (length s))
  else None.

Record Perform := {
  port_avg_rets : list val;
  port_min_rets : list val;
  port_max_rets : list val;
  snp_avg_rets : list val;
  port_diff : list val
}.

(** ** The script *)

Section Script.

(** The three inputs: the pivoted price table, the index prices
    ([spindx]) and the risk-free rate ([rf]), over one date index. *)
Variable pivot : DataFrame.
Variable snp_prices : Series.
Variable risk_free : Series.

Definition stock_prices : DataFrame := apply_columns series_ffill pivot.

Definition stock_rets : DataFrame :=
  apply_columns series_pct_change stock_prices.
Definition snp_rets : Series := series_pct_change snp_prices.

Definition market_premium : Series := series_sub snp_rets risk_free.

Definition stock_premium : DataFrame :=
  apply_columns (fun c => series_sub c risk_free) stock_rets.

Definition formation (w : nat) : DataFrame :=
  apply_columns (series_rolling_apply w compound) stock_premium.

Definition form : Dict :=
  map (fun w => (w, formation w)) [5; 30; 60; 90; 120]%nat.

Definition hpr : Dict :=
  map (fun w => (w, apply_columns (series_shift_back w) (dict_at form w)))
      [5; 60; 120]%nat.

Definition f_ranks (F : nat) : DataFrame := rank_axis1 (dict_at form F).
Definition f_max (F : nat) : Series :=
  max_axis1 (rank_axis1 (dict_at form F)).

Definition f5_ranks := f_ranks 5.
Definition f5_max := f_max 5.
Definition f30_ranks := f_ranks 30.
Definition f30_max := f_max 30.
Definition f90_ranks := f_ranks 90.
Definition f90_max := f_max 90.

(** The strategy of formation window [F] and holding window [H]. *)
Definition portfolio (F H : nat) : Series :=
  long_short (f_ranks F) (f_max F) (dict_at hpr H).

Definition f5hpr5 := portfolio 5 5.
Definition f5hpr60 := portfolio 5 60.
Definition f5hpr60_cumrets := cumrets f5hpr60.
Definition f5hpr120 := portfolio 5 120.
Definition f5hpr120_cumrets := cumrets f5hpr120.
Definition f30hpr5 := portfolio 30 5.
Definition f30hpr5_cumrets := cumrets f30hpr5.
Definition f30hpr60 := portfolio 30 60.
Definition f30hpr60_cumrets := cumrets f30hpr60.
Definition f30hpr120 := portfolio 30 120.
Definition f30hpr120_cumrets := cumrets f30hpr120.
Definition f90hpr5 := portfolio 90 5.
Definition f90hpr5_cumrets := cumrets f90hpr5.
Definition f90hpr60 := portfolio 90 60.
Definition f90hpr60_cumrets := cumrets f90hpr60.
Definition f90hpr120 := portfolio 90 120.
Definition f90hpr120_cumrets := cumrets f90hpr120.

Definition portfolios : list Series :=
  [f5hpr5; f5hpr60; f5hpr120;
   f30hpr5; f30hpr60; f30hpr120;
   f90hpr5; f90hpr60; f90hpr120].

Definition avg_rets : list val := map np_average portfolios.
Definition min_rets : list val := map vmin portfolios.
Definition max_rets : list val := map vmax portfolios.

Definition port_perform : Perform :=
  let snp := repeat (vmean market_premium) (length avg_rets) in
  {| port_avg_rets := avg_rets;
     port_min_rets := min_rets;
     port_max_rets := max_rets;
     snp_avg_rets := snp;
     port_diff := zip_with vsub avg_rets snp |}.

End Script.

(** ** What the script writes and prints *)



(** The value printed as [Best Performer]:
    [port_perform["port avg rets"].max()]. *)
Definition best_performer (pivot : DataFrame) (snp_prices risk_free : Series)
  : val :=
  vmax (port_avg_rets (port_perform pivot snp_prices risk_free)).

(** The product of [f 0 .. f (n-1)] and the sum of [f 0 .. f (n-1)], as the
    specification writes them. *)
Fixpoint big_prod (f : nat -> Qc) (n : nat) : Qc :=
  match n with
  | O => 1
  | S n' => big_prod f n' * f n'
  end.

Fixpoint big_sum (f : nat -> Qc) (n : nat) : Qc :=
  match n with
  | O => 0
  | S n' => big_sum f n' + f n'
  end.

(** ** Buckets and sums, as the specification writes them *)

(** Membership of ticker [i] in the bucket that a mask frame selects on date
    [t]. *)
Definition mask_at (m : list (list bool)) (t i : nat) : bool :=
  nth i (nth t m []) false.

(** A holding return as a term of a sum: a missing one adds nothing. *)
Definition val0 (v : val) : Qc :=
  match v with Some x => x | None => 0 end.

(** The sum of the holding returns [h i] over the tickers [i < N] of a
    bucket, and the number of tickers in the bucket. *)
Definition bucket_sum (sel : nat -> bool) (h : nat -> val) (N : nat) : Qc :=
  big_sum (fun i => if sel i then val0 (h i) else 0) N.

Definition bucket_size (sel : nat -> bool) (N : nat) : nat :=
  length (filter sel (seq 0 N)).

(** The short bucket of the specification: the ranked tickers whose rank is
    at least the maximum rank of the date minus 5. *)
Definition spec_short (ranks : DataFrame) (fmax : Series) (t i : nat) : bool :=
  vge (cell ranks t i) (vsub (at_ fmax t) (Some Qc_five)).


(** Decidable equality of values and of rows, for evaluation. *)
Definition val_eqb (a b : val) : bool :=
  match a, b with
  | Some x, Some y => Qceqb x y
  | None, None => true
  | _, _ => false
  end.

Fixpoint row_eqb (r r' : list val) : bool :=
  match r, r' with
  | [], [] => true
  | a :: l, b :: l' => val_eqb a b && row_eqb l l'
  | _, _ => false
  end.

(** ** Sample data

    Every ticker starts at 100 and gains a fixed number of tenths a day,
    ticker [k] of [prices] gaining [k/10]; the risk-free rate is 1/100 on
    every date. *)
Module Sample.

Definition q (a : Z) (b : positive) : val := Some (Q2Qc (a # b)).

Fixpoint price (g : Qc) (t : nat) : Qc :=
  match t with
  | O => Q2Qc 100
  | S t' => price g t' * g
  end.

(** The price table of tickers with the given daily gains, in tenths. *)
Definition table (gains : list nat) (T : nat) : DataFrame :=
  map (fun t =>
         map (fun k => Some (price (1 + nat2Qc k * Q2Qc (1 # 10)) t)) gains)
      (seq 0 T).

Definition prices (N T : nat) : DataFrame := table (seq 0 N) T.

Definition rf (T : nat) : Series := repeat (q 1 100) T.

(** An index that starts at 1000 and gains a twentieth a day. *)
Definition snp (T : nat) : Series :=
  map (fun t => Some (Q2Qc 10 * price (Q2Qc (21 # 20)) t)) (seq 0 T).

End Sample.

(** * Lemmas on the building blocks *)

Section Comparisons.

Lemma Qcleb_true (x y : Qc) : Qcleb x y = true <-> x <= y.
Proof.
  unfold Qcleb. rewrite Qcle_alt.
  destruct (x ?= y); split; intro H; try reflexivity; congruence.
Qed.

Lemma Qcltb_true (x y : Qc) : Qcltb x y = true <-> x < y.
Proof.
  unfold Qcltb. rewrite Qclt_alt.
  destruct (x ?= y); split; intro H; try reflexivity; congruence.
Qed.

Lemma Qceqb_true (x y : Qc) : Qceqb x y = true <-> x = y.
Proof.
  unfold Qceqb. rewrite Qceq_alt.
  destruct (x ?= y); split; intro H; try reflexivity; congruence.
Qed.

Lemma Qceqb_refl (x : Qc) : Qceqb x x = true.
Proof. now apply Qceqb_true. Qed.

Lemma Qcltb_false (x y : Qc) : Qcltb x y = false <-> y <= x.
Proof.
  split; intro H.
  - apply Qcnot_lt_le. intro L. apply Qcltb_true in L. congruence.
  - destruct (Qcltb x y) eqn:E; [|reflexivity].
    apply Qcltb_true in E. now apply Qclt_not_le in E.
Qed.

End Comparisons.

Section Lists.

Context {A B C : Type}.

Lemma zip_with_length (f : A -> B -> C) (l : list A) (m : list B) :
  length (zip_with f l m) = Nat.min (length l) (length m).
Proof.
  revert m; induction l as [|x l IH]; intros [|y m]; simpl; auto.
Qed.

Lemma zip_with_nth (f : A -> B -> C) (l : list A) (m : list B)
      (n : nat) (da : A) (db : B) (dc : C) :
  (n < length l)%nat -> (n < length m)%nat ->
  nth n (zip_with f l m) dc = f (nth n l da) (nth n m db).
Proof.
  revert m n; induction l as [|x l IH]; intros [|y m] [|n] Hl Hm;
    simpl in *; try lia; auto.
  apply IH; lia.
Qed.

Lemma nth_map_seq (f : nat -> A) (n t : nat) (d : A) :
  (t < n)%nat -> nth t (map f (seq 0 n)) d = f t.
Proof.
  intro H. rewrite (nth_indep _ d (f O)) by now rewrite length_map, length_seq.
  rewrite map_nth, seq_nth by assumption. reflexivity.
Qed.

End Lists.

Section Frames.

Lemma at_map_seq (f : nat -> val) (n t : nat) :
  (t < n)%nat -> at_ (map f (seq 0 n)) t = f t.
Proof. apply nth_map_seq. Qed.

Lemma apply_columns_length (f : Series -> Series) (df : DataFrame) :
  length (apply_columns f df) = length df.
Proof. unfold apply_columns, of_columns. now rewrite length_map, length_seq. Qed.

Lemma apply_columns_row (f : Series -> Series) (df : DataFrame) (t : nat) :
  (t < length df)%nat ->
  row_at (apply_columns f df) t =
  map (fun i => at_ (f (column df i)) t) (seq 0 (ncols df)).
Proof.
  intro H. unfold row_at, apply_columns, of_columns.
  rewrite nth_map_seq by assumption. now rewrite map_map.
Qed.

Lemma apply_columns_row_length (f : Series -> Series) (df : DataFrame)
      (t : nat) :
  (t < length df)%nat -> length (row_at (apply_columns f df) t) = ncols df.
Proof.
  intro H. rewrite apply_columns_row by assumption.
  now rewrite length_map, length_seq.
Qed.

Lemma apply_columns_cell (f : Series -> Series) (df : DataFrame) (t i : nat) :
  (t < length df)%nat -> (i < ncols df)%nat ->
  cell (apply_columns f df) t i = at_ (f (column df i)) t.
Proof.
  intros Ht Hi. unfold cell. rewrite apply_columns_row by assumption.
  now rewrite at_map_seq.
Qed.

Lemma apply_columns_ncols (f : Series -> Series) (df : DataFrame) :
  df <> [] -> ncols (apply_columns f df) = ncols df.
Proof.
  intro H. destruct df as [|r df]; [congruence|].
  change (ncols (apply_columns f (r :: df)))
    with (length (row_at (apply_columns f (r :: df)) 0)).
  apply apply_columns_row_length. simpl; lia.
Qed.

Lemma column_at (df : DataFrame) (i t : nat) :
  at_ (column df i) t = cell df t i.
Proof.
  unfold column, cell, row_at, at_.
  destruct (Nat.lt_ge_cases t (length df)) as [H|H].
  - rewrite (nth_indep _ NaN (nth i [] NaN)) by now rewrite length_map.
    now rewrite (map_nth (fun r => nth i r NaN)).
  - rewrite (nth_overflow (map _ df)) by now rewrite length_map.
    rewrite (nth_overflow df) by assumption. now destruct i.
Qed.

Lemma column_length (df : DataFrame) (i : nat) :
  length (column df i) = length df.
Proof. apply length_map. Qed.

End Frames.

Section Present.

Lemma present_map_Some (l : list Qc) : present (map Some l) = l.
Proof. induction l as [|x l IH]; simpl; congruence. Qed.

Lemma present_length_le (s : list val) :
  (length (present s) <= length s)%nat.
Proof. induction s as [|[x|] s IH]; simpl; lia. Qed.

Lemma present_full (s : list val) (j : nat) :
  length (present s) = length s -> (j < length s)%nat -> nth j s NaN <> None.
Proof.
  revert j; induction s as [|[x|] s IH]; intros j E Hj; simpl in *; try lia.
  - destruct j; [discriminate|]. apply IH; lia.
  - pose proof (present_length_le s). lia.
Qed.

Lemma present_all_missing (s : list val) :
  (forall j, (j < length s)%nat -> nth j s NaN = None) -> present s = [].
Proof.
  induction s as [|v s IH]; intro H; [reflexivity|].
  pose proof (H O ltac:(simpl; lia)) as H0. simpl in H0. subst v. simpl.
  apply IH. intros j Hj. apply (H (S j)). simpl; lia.
Qed.

End Present.

Section Products.

Lemma fold_mult_acc (l : list Qc) (a : Qc) :
  fold_left Qcmult l a = a * Qcprod l.
Proof.
  unfold Qcprod. revert a; induction l as [|x l IH]; intro a; simpl.
  - ring.
  - rewrite (IH (a * x)), (IH (1 * x)). ring.
Qed.

Lemma fold_plus_acc (l : list Qc) (a : Qc) :
  fold_left Qcplus l a = a + Qcsum l.
Proof.
  unfold Qcsum. revert a; induction l as [|x l IH]; intro a; simpl.
  - ring.
  - rewrite (IH (a + x)), (IH (0 + x)). ring.
Qed.

Lemma Qcprod_cons (x : Qc) (l : list Qc) : Qcprod (x :: l) = x * Qcprod l.
Proof. unfold Qcprod at 1. simpl. rewrite fold_mult_acc. ring. Qed.

Lemma Qcsum_cons (x : Qc) (l : list Qc) : Qcsum (x :: l) = x + Qcsum l.
Proof. unfold Qcsum at 1. simpl. rewrite fold_plus_acc. ring. Qed.

(** The window lists its observations oldest first; the product does not
    depend on that order. *)
Lemma Qcprod_window (f : nat -> Qc) (w : nat) :
  Qcprod (map (fun j => f (w - 1 - j)%nat) (seq 0 w)) = big_prod f w.
Proof.
  induction w as [|w IH]; [reflexivity|].
  simpl seq. rewrite <- seq_shift, map_cons, map_map, Qcprod_cons.
  replace (S w - 1 - 0)%nat with w by lia.
  rewrite (map_ext _ (fun j => f (w - 1 - j)%nat)).
  - rewrite IH. simpl. ring.
  - intro j. f_equal. lia.
Qed.

End Products.

Section Rolling.

Variables (w : nat) (s : Series) (t : nat).

Lemma window_nth (j : nat) :
  (j < w)%nat -> nth j (window w s t) NaN = at_ s (S t - w + j).
Proof.
  intro H. unfold window. rewrite nth_firstn, nth_skipn.
  apply Nat.ltb_lt in H. now rewrite H.
Qed.

Lemma window_length :
  (w <= S t)%nat -> (t < length s)%nat -> length (window w s t) = w.
Proof. intros. unfold window. rewrite length_firstn, length_skipn. lia. Qed.

Lemma window_length_le : (length (window w s t) <= w)%nat.
Proof. unfold window. rewrite length_firstn. lia. Qed.

Lemma rolling_at_full (p : nat -> Qc) :
  (w <= S t)%nat -> (t < length s)%nat ->
  (forall k, (k < w)%nat -> at_ s (t - k) = Some (p k)) ->
  rolling_at w compound s t = Some (big_prod (fun k => 1 + p k) w - 1).
Proof.
  intros Hw Ht Hp.
  assert (E : window w s t = map Some (map (fun j => p (w - 1 - j)%nat) (seq 0 w))).
  { apply (nth_ext _ _ NaN NaN).
    - rewrite window_length by assumption.
      now rewrite !length_map, length_seq.
    - intros j Hj. rewrite window_length in Hj by assumption.
      rewrite window_nth by assumption. rewrite map_map.
      rewrite nth_map_seq by assumption.
      rewrite <- Hp by lia. f_equal. lia. }
  unfold rolling_at. rewrite E, present_map_Some, length_map, length_seq.
  apply Nat.leb_le in Hw. rewrite Hw, Nat.eqb_refl. simpl.
  unfold compound. rewrite map_map.
  now rewrite (Qcprod_window (fun k => 1 + p k)).
Qed.

Lemma rolling_at_short (f : list Qc -> Qc) :
  (S t < w)%nat -> rolling_at w f s t = None.
Proof.
  intro H. unfold rolling_at.
  destruct (Nat.leb_spec w (S t)); [lia|reflexivity].
Qed.

Lemma rolling_at_gap (f : list Qc -> Qc) (k : nat) :
  (k < w)%nat -> (k <= t)%nat -> at_ s (t - k) = None ->
  rolling_at w f s t = None.
Proof.
  intros Hk Hkt Hn. unfold rolling_at.
  destruct (Nat.leb_spec w (S t)) as [Hw|Hw]; [|reflexivity].
  destruct (Nat.eqb_spec (length (present (window w s t))) w) as [E|E];
    [|reflexivity].
  exfalso.
  pose proof (present_length_le (window w s t)) as L1.
  pose proof window_length_le as L2.
  apply (present_full (window w s t) (w - 1 - k)); try lia.
  rewrite window_nth by lia. rewrite <- Hn. f_equal. lia.
Qed.

End Rolling.

Section ScriptFacts.

Variables (pivot : DataFrame) (risk_free : Series).

Lemma dict_get_map (g : nat -> DataFrame) (l : list nat) (k : nat)
      (df : DataFrame) :
  dict_get (map (fun w => (w, g w)) l) k = Some df -> In k l /\ df = g k.
Proof.
  induction l as [|a l IH]; simpl; [discriminate|].
  destruct (Nat.eqb_spec a k) as [->|N]; intro H.
  - injection H as <-. auto.
  - destruct (IH H); auto.
Qed.

Lemma dict_get_map_in (g : nat -> DataFrame) (l : list nat) (k : nat) :
  In k l -> dict_get (map (fun w => (w, g w)) l) k = Some (g k).
Proof.
  induction l as [|a l IH]; simpl; [tauto|].
  destruct (Nat.eqb_spec a k) as [->|N]; intros [E|I]; try congruence; auto.
Qed.

Lemma stock_prices_length : length (stock_prices pivot) = length pivot.
Proof. apply apply_columns_length. Qed.

Lemma stock_rets_length : length (stock_rets pivot) = length pivot.
Proof. unfold stock_rets. now rewrite apply_columns_length, stock_prices_length. Qed.

Lemma stock_premium_length :
  length (stock_premium pivot risk_free) = length pivot.
Proof.
  unfold stock_premium. now rewrite apply_columns_length, stock_rets_length.
Qed.

Lemma nonempty_of_length (df : DataFrame) (t : nat) :
  (t < length df)%nat -> df <> [].
Proof. destruct df; simpl; [lia|discriminate]. Qed.

Lemma stock_prices_ncols : pivot <> [] -> ncols (stock_prices pivot) = ncols pivot.
Proof. apply apply_columns_ncols. Qed.

Lemma stock_rets_ncols : pivot <> [] -> ncols (stock_rets pivot) = ncols pivot.
Proof.
  intro H. unfold stock_rets. rewrite apply_columns_ncols.
  - now apply stock_prices_ncols.
  - intro E. apply (f_equal (@length _)) in E.
    rewrite stock_prices_length in E. destruct pivot; simpl in *; congruence.
Qed.

Lemma stock_premium_ncols :
  pivot <> [] -> ncols (stock_premium pivot risk_free) = ncols pivot.
Proof.
  intro H. unfold stock_premium. rewrite apply_columns_ncols.
  - now apply stock_rets_ncols.
  - intro E. apply (f_equal (@length _)) in E.
    rewrite stock_rets_length in E. destruct pivot; simpl in *; congruence.
Qed.

Lemma formation_length (w : nat) :
  length (formation pivot risk_free w) = length pivot.
Proof.
  unfold formation. now rewrite apply_columns_length, stock_premium_length.
Qed.

Lemma formation_cell (w t i : nat) :
  (t < length pivot)%nat -> (i < ncols pivot)%nat ->
  cell (formation pivot risk_free w) t i =
  rolling_at w compound (column (stock_premium pivot risk_free) i) t.
Proof.
  intros Ht Hi. unfold formation.
  rewrite apply_columns_cell.
  - unfold series_rolling_apply. rewrite at_map_seq; [reflexivity|].
    now rewrite column_length, stock_premium_length.
  - now rewrite stock_premium_length.
  - rewrite stock_premium_ncols; [assumption|].
    now apply (nonempty_of_length _ t).
Qed.

Lemma formation_row_length (w t : nat) :
  (t < length pivot)%nat ->
  length (row_at (formation pivot risk_free w) t) = ncols pivot.
Proof.
  intro Ht. unfold formation. rewrite apply_columns_row_length.
  - apply stock_premium_ncols. now apply (nonempty_of_length _ t).
  - now rewrite stock_premium_length.
Qed.

Lemma form_lookup (w : nat) (df : DataFrame) :
  dict_get (form pivot risk_free) w = Some df ->
  In w [5; 30; 60; 90; 120]%nat /\ df = formation pivot risk_free w.
Proof. apply dict_get_map. Qed.

Lemma hpr_lookup (h : nat) (df : DataFrame) :
  dict_get (hpr pivot risk_free) h = Some df ->
  In h [5; 60; 120]%nat /\
  df = apply_columns (series_shift_back h) (formation pivot risk_free h).
Proof.
  intro H. apply dict_get_map in H. destruct H as [I ->]. split; [assumption|].
  unfold dict_at, form.
  rewrite dict_get_map_in; [reflexivity|].
  simpl in *. intuition.
Qed.

End ScriptFacts.

Section Evaluation.

Lemma val_eqb_eq (a b : val) : val_eqb a b = true <-> a = b.
Proof.
  destruct a as [x|], b as [y|]; simpl; split; intro H;
    try discriminate; try reflexivity.
  - f_equal. now apply Qceqb_true.
  - apply Qceqb_true. congruence.
Qed.

Lemma val_eqb_neq (a b : val) : val_eqb a b = false -> a <> b.
Proof. intros H E. apply val_eqb_eq in E. congruence. Qed.

Lemma row_eqb_eq (r r' : list val) : row_eqb r r' = true <-> r = r'.
Proof.
  revert r'; induction r as [|a r IH]; intros [|b r']; simpl; split; intro H;
    try discriminate; try reflexivity.
  - apply andb_true_iff in H. destruct H as [H1 H2].
    apply val_eqb_eq in H1. apply IH in H2. congruence.
  - injection H as -> ->. apply andb_true_iff. split.
    + now apply val_eqb_eq.
    + now apply IH.
Qed.

Lemma row_eqb_neq (r r' : list val) : row_eqb r r' = false -> r <> r'.
Proof. intros H E. apply row_eqb_eq in E. congruence. Qed.

End Evaluation.

(** Goals between closed values are settled by evaluation. *)
Ltac by_eval :=
  lazymatch goal with
  | |- @eq val _ _ => apply val_eqb_eq; vm_compute; reflexivity
  | |- @eq (option Qc) _ _ => apply val_eqb_eq; vm_compute; reflexivity
  | |- @eq (list val) _ _ => apply row_eqb_eq; vm_compute; reflexivity
  | |- @eq Series _ _ => apply row_eqb_eq; vm_compute; reflexivity
  | |- @eq Qc _ _ => apply Qceqb_true; vm_compute; reflexivity
  | |- not (@eq (list val) _ _) => apply row_eqb_neq; vm_compute; reflexivity
  | |- not (@eq Series _ _) => apply row_eqb_neq; vm_compute; reflexivity
  | |- not (@eq _ _ _) => apply val_eqb_neq; vm_compute; reflexivity
  | |- _ => vm_compute; reflexivity
  end.

(** * The formation window engine *)

(** C4. For a window [W] of the formation dictionary, a date [t] and a ticker
    [i]: when the [W] premium observations ending at [t] all exist, the
    formation return is the product of [1 + premium(t-k,i)] for [k < W],
    minus 1; when the history is shorter than [W] or an observation of the
    window is missing, the formation return is missing (so it is not zero). *)
Theorem formation_compounds (pivot : DataFrame) (risk_free : Series)
        (W : nat) (df : DataFrame) (t i : nat) :
  dict_get (form pivot risk_free) W = Some df ->
  (t < length pivot)%nat -> (i < ncols pivot)%nat ->
  In W [5; 30; 60; 90; 120]%nat /\
  (forall p : nat -> Qc,
      (W <= S t)%nat ->
      (forall k, (k < W)%nat ->
                 cell (stock_premium pivot risk_free) (t - k) i = Some (p k)) ->
      cell df t i = Some (big_prod (fun k => 1 + p k) W - 1)) /\
  ((S t < W)%nat \/
   (exists k, (k < W)%nat /\ (k <= t)%nat /\
              cell (stock_premium pivot risk_free) (t - k) i = None) ->
   cell df t i = None /\ cell df t i <> Some 0).
Proof.
  intros Hd Ht Hi. apply form_lookup in Hd. destruct Hd as [HW ->].
  split; [assumption|]. rewrite formation_cell by assumption. split.
  - intros p Hw Hp. apply rolling_at_full; try assumption.
    + now rewrite column_length, stock_premium_length.
    + intros k Hk. rewrite column_at. now apply Hp.
  - intros [Hs|[k [Hk [Hkt Hn]]]].
    + rewrite rolling_at_short by assumption. split; congruence.
    + rewrite (rolling_at_gap _ _ _ _ k) by (try assumption; now rewrite column_at).
      split; congruence.
Qed.

Lemma formation_compounds_witness :
  cell (formation (Sample.prices 3 7) (Sample.rf 7) 5) 5 2 =
    Some (big_prod (fun _ => 1 + Q2Qc (19 # 100)) 5 - 1) /\
  cell (formation (Sample.prices 3 7) (Sample.rf 7) 5) 4 2 = None.
Proof.
  split.
  - destruct (formation_compounds (Sample.prices 3 7) (Sample.rf 7) 5 _ 5 2
                eq_refl ltac:(simpl; lia) ltac:(simpl; lia)) as [_ [H _]].
    apply (H (fun _ => Q2Qc (19 # 100))); [lia|].
    intros k Hk.
    do 5 (destruct k as [|k]; [by_eval|]). lia.
  - destruct (formation_compounds (Sample.prices 3 7) (Sample.rf 7) 5 _ 4 2
                eq_refl ltac:(simpl; lia) ltac:(simpl; lia)) as [_ [_ H]].
    apply H. right. exists 4%nat. split; [lia|]. split; [lia|]. by_eval.
Defined.

(** * The holding window aligner *)

(** C5. For a holding window [H] of the holding dictionary, the holding
    return at [(t,i)] is the formation return of window [H] at [(t+H,i)]
    while [t+H] is a date of the index, and is missing on the last [H]
    dates. *)
Theorem holding_is_formation_ahead (pivot : DataFrame) (risk_free : Series)
        (H : nat) (hdf : DataFrame) (t i : nat) :
  dict_get (hpr pivot risk_free) H = Some hdf ->
  (t < length pivot)%nat -> (i < ncols pivot)%nat ->
  In H [5; 60; 120]%nat /\
  exists fdf, dict_get (form pivot risk_free) H = Some fdf /\
    ((t + H < length pivot)%nat -> cell hdf t i = cell fdf (t + H) i) /\
    ((length pivot <= t + H)%nat -> cell hdf t i = None).
Proof.
  intros Hd Ht Hi. apply hpr_lookup in Hd. destruct Hd as [HH ->].
  split; [assumption|].
  exists (formation pivot risk_free H). split.
  - unfold form. apply dict_get_map_in. simpl in *. intuition.
  - assert (E : cell (apply_columns (series_shift_back H)
                        (formation pivot risk_free H)) t i
                = cell (formation pivot risk_free H) (t + H) i).
    { rewrite apply_columns_cell.
      - unfold series_shift_back. rewrite at_map_seq.
        + apply column_at.
        + now rewrite column_length, formation_length.
      - now rewrite formation_length.
      - change (ncols (formation pivot risk_free H))
          with (ncols (apply_columns (series_rolling_apply H compound)
                         (stock_premium pivot risk_free))).
        rewrite apply_columns_ncols, stock_premium_ncols;
          try assumption; try now apply (nonempty_of_length _ t).
        intro E. apply (f_equal (@length _)) in E.
        rewrite stock_premium_length in E. simpl in E. lia. }
    split; intro L; rewrite E; [reflexivity|].
    unfold cell, row_at. rewrite nth_overflow.
    + now destruct i.
    + now rewrite formation_length.
Qed.

Lemma holding_is_formation_ahead_witness :
  cell (dict_at (hpr (Sample.prices 3 12) (Sample.rf 12)) 5) 5 2 =
    cell (dict_at (form (Sample.prices 3 12) (Sample.rf 12)) 5) 10 2 /\
  cell (dict_at (hpr (Sample.prices 3 12) (Sample.rf 12)) 5) 7 2 = None.
Proof.
  split.
  - destruct (holding_is_formation_ahead (Sample.prices 3 12) (Sample.rf 12)
                5 _ 5 2 eq_refl ltac:(simpl; lia) ltac:(simpl; lia))
      as [_ [fdf [Hf [Hin _]]]].
    injection Hf as <-. apply Hin. simpl; lia.
  - destruct (holding_is_formation_ahead (Sample.prices 3 12) (Sample.rf 12)
                5 _ 7 2 eq_refl ltac:(simpl; lia) ltac:(simpl; lia))
      as [_ [fdf [_ [_ Hout]]]].
    apply Hout. simpl; lia.
Defined.

(** * The return calculator *)

Section Returns.

Lemma at_map (f : val -> val) (s : Series) (t : nat) :
  f NaN = NaN -> at_ (map f s) t = f (at_ s t).
Proof.
  intro H. unfold at_. rewrite <- H at 1. apply map_nth.
Qed.

Lemma at_repeat (v : val) (n t : nat) :
  (t < n)%nat -> at_ (repeat v n) t = v.
Proof.
  revert t; induction n as [|n IH]; intros [|t] H; simpl; try lia; auto.
  apply IH; lia.
Qed.

Lemma constant_series (s : Series) (v : val) :
  (forall t, (t < length s)%nat -> at_ s t = v) -> s = repeat v (length s).
Proof.
  intro H. apply (nth_ext _ _ NaN NaN).
  - now rewrite repeat_length.
  - intros t Ht. fold (at_ s t). fold (at_ (repeat v (length s)) t).
    now rewrite at_repeat, H.
Qed.

Lemma ffill_constant (p : Qc) (n : nat) (last : val) :
  ffill_from last (repeat (Some p) n) = repeat (Some p) n.
Proof.
  revert last; induction n as [|n IH]; intro last; simpl; [reflexivity|].
  now rewrite IH.
Qed.

Lemma pct_change_constant (p : Qc) (n t : nat) :
  (t < n)%nat ->
  at_ (series_pct_change (repeat (Some p) n)) t =
  match t with
  | O => None
  | S _ => if Qceqb p 0 then None else Some 0
  end.
Proof.
  intro H. unfold series_pct_change, series_ffill.
  rewrite ffill_constant, at_map by reflexivity.
  unfold at_ at 1.
  rewrite (zip_with_nth vdiv _ _ _ NaN NaN)
    by (unfold series_shift1;
        rewrite ?length_map, ?length_seq, ?repeat_length; assumption).
  fold (at_ (repeat (Some p) n) t).
  fold (at_ (series_shift1 (repeat (Some p) n)) t).
  rewrite at_repeat by assumption.
  unfold series_shift1. rewrite repeat_length, at_map_seq by assumption.
  destruct t as [|t]; [reflexivity|].
  rewrite at_repeat by lia. simpl.
  destruct (Qceqb p 0) eqn:E; [reflexivity|].
  simpl. f_equal. field. intro Z. subst p. now rewrite Qceqb_refl in E.
Qed.

Lemma stock_rets_cell (pivot : DataFrame) (t i : nat) :
  (t < length pivot)%nat -> (i < ncols pivot)%nat ->
  cell (stock_rets pivot) t i =
  at_ (series_pct_change (column (stock_prices pivot) i)) t.
Proof.
  intros Ht Hi. unfold stock_rets. apply apply_columns_cell.
  - now rewrite stock_prices_length.
  - rewrite stock_prices_ncols; [assumption|].
    now apply (nonempty_of_length _ t).
Qed.

Lemma stock_premium_cell (pivot : DataFrame) (risk_free : Series) (t i : nat) :
  (t < length pivot)%nat -> (i < ncols pivot)%nat ->
  cell (stock_premium pivot risk_free) t i =
  vsub (cell (stock_rets pivot) t i) (at_ risk_free t).
Proof.
  intros Ht Hi. unfold stock_premium. rewrite apply_columns_cell.
  - unfold series_sub. rewrite at_map_seq.
    + now rewrite column_at.
    + now rewrite column_length, stock_rets_length.
  - now rewrite stock_rets_length.
  - rewrite stock_rets_ncols; [assumption|].
    now apply (nonempty_of_length _ t).
Qed.

End Returns.

(** C8, as the script has it.  For a ticker whose forward-filled price is
    the same [p] on every date: its return is zero wherever it is defined,
    and it is defined from the second date on when [p] is not zero; its
    premium, wherever defined, is the opposite of the risk-free rate of that
    date, so it is zero exactly on the dates where that rate is zero. *)
Theorem constant_price_returns (pivot : DataFrame) (risk_free : Series)
        (i : nat) (p : Qc) (t : nat) :
  (forall u, (u < length pivot)%nat ->
             cell (stock_prices pivot) u i = Some p) ->
  (t < length pivot)%nat -> (i < ncols pivot)%nat ->
  (forall r, cell (stock_rets pivot) t i = Some r -> r = 0) /\
  (p <> 0 -> (1 <= t)%nat -> cell (stock_rets pivot) t i = Some 0) /\
  (forall m, cell (stock_premium pivot risk_free) t i = Some m ->
             exists f, at_ risk_free t = Some f /\ m = - f /\
                       (m = 0 <-> f = 0)).
Proof.
  intros Hc Ht Hi.
  assert (E : cell (stock_rets pivot) t i =
              match t with
              | O => None
              | S _ => if Qceqb p 0 then None else Some 0
              end).
  { rewrite stock_rets_cell by assumption.
    rewrite (constant_series (column (stock_prices pivot) i) (Some p)).
    - apply pct_change_constant.
      now rewrite column_length, stock_prices_length.
    - intros u Hu. rewrite column_length, stock_prices_length in Hu.
      rewrite column_at. now apply Hc. }
  split; [|split].
  - intros r Hr. rewrite E in Hr. destruct t; [discriminate|].
    destruct (Qceqb p 0); congruence.
  - intros Hp H1. rewrite E. destruct t; [lia|].
    destruct (Qceqb p 0) eqn:Z; [|reflexivity].
    apply Qceqb_true in Z. contradiction.
  - intros m Hm. rewrite stock_premium_cell, E in Hm by assumption.
    destruct t; [discriminate|].
    destruct (Qceqb p 0); [discriminate|].
    destruct (at_ risk_free (S t)) as [f|]; [|discriminate].
    exists f. simpl in Hm. injection Hm as <-.
    split; [reflexivity|]. split; [ring|].
    split; intro Z.
    + rewrite <- (Qcopp_involutive f).
      replace (- f) with (0 - f) by ring. rewrite Z. ring.
    + subst f. ring.
Qed.

Lemma constant_price_returns_witness :
  cell (stock_rets (Sample.prices 2 3)) 1 0 = Some 0 /\
  forall m, cell (stock_premium (Sample.prices 2 3) (Sample.rf 3)) 1 0 = Some m ->
            m = - Q2Qc (1 # 100).
Proof.
  assert (Hc : forall u, (u < length (Sample.prices 2 3))%nat ->
                 cell (stock_prices (Sample.prices 2 3)) u 0 = Some (Q2Qc 100)).
  { intros u Hu. simpl in Hu.
    do 3 (destruct u as [|u]; [by_eval|]). lia. }
  destruct (constant_price_returns (Sample.prices 2 3) (Sample.rf 3) 0
              (Q2Qc 100) 1 Hc ltac:(simpl; lia) ltac:(simpl; lia))
    as [_ [H1 H2]].
  split.
  - apply H1; [|lia]. intro Z. apply Qceqb_true in Z. vm_compute in Z.
    discriminate.
  - intros m Hm. destruct (H2 m Hm) as [f [Hf [-> _]]].
    vm_compute in Hf. injection Hf as <-. by_eval.
Defined.

(** C8, counterexample to the claim as written: the first sample ticker has
    the constant price 100, the risk-free rate is 1/100, and its premium on
    the second date is defined and is -1/100, not zero. *)
Lemma constant_price_premium_not_zero :
  (forall u, (u < 3)%nat ->
             cell (stock_prices (Sample.prices 2 3)) u 0 = Some (Q2Qc 100)) /\
  cell (stock_premium (Sample.prices 2 3) (Sample.rf 3)) 1 0
    = Some (- Q2Qc (1 # 100)) /\
  cell (stock_premium (Sample.prices 2 3) (Sample.rf 3)) 1 0 <> Some 0.
Proof.
  split; [|split].
  - intros u Hu. do 3 (destruct u as [|u]; [by_eval|]). lia.
  - by_eval.
  - by_eval.
Qed.

(** * The rank-based selector *)

Section Naturals.

Lemma nat2Qc_S (n : nat) : nat2Qc (S n) = nat2Qc n + 1.
Proof.
  apply Qc_is_canon. unfold nat2Qc, Qcplus, Q2Qc. cbn [this].
  rewrite !Qred_correct, Nat2Z.inj_succ. unfold Z.succ.
  now rewrite inject_Z_plus.
Qed.

Lemma nat2Qc_inj (n m : nat) : nat2Qc n = nat2Qc m -> n = m.
Proof.
  unfold nat2Qc. intro H. apply Q2Qc_eq_iff in H.
  unfold Qeq, inject_Z in H. cbn [Qnum Qden] in H. lia.
Qed.

(** A place [g + (e+1)/2] with [g + e <= n] and [1 <= e] is at most [n]. *)
Lemma place_bound (g e n : nat) :
  (g + e <= n)%nat -> (1 <= e)%nat ->
  nat2Qc g + (nat2Qc e + 1) * Qc_half <= nat2Qc n.
Proof.
  intros H1 H2. unfold Qcle, nat2Qc, Qc_half, Qcplus, Qcmult, Q2Qc.
  cbn [this]. rewrite !Qred_correct.
  unfold Qle, Qplus, Qmult, inject_Z. cbn [Qnum Qden]. lia.
Qed.

Lemma place_single (g : nat) :
  nat2Qc g + (nat2Qc 1 + 1) * Qc_half = nat2Qc (S g).
Proof.
  rewrite (nat2Qc_S g).
  replace ((nat2Qc 1 + 1) * Qc_half) with 1; [reflexivity|].
  apply Qceqb_true. vm_compute. reflexivity.
Qed.

End Naturals.

Section Counting.

Variable A : Type.

Lemma filter_all (l : list A) : filter (fun _ => true) l = l.
Proof. induction l as [|a l IH]; simpl; congruence. Qed.

Lemma filter_length_mono (f g : A -> bool) (l : list A) :
  (forall z, In z l -> f z = true -> g z = true) ->
  (length (filter f l) <= length (filter g l))%nat.
Proof.
  induction l as [|a l IH]; intro H; simpl; [lia|].
  assert (IH' := IH (fun z Hz => H z (or_intror Hz))).
  destruct (f a) eqn:Fa.
  - rewrite (H a (or_introl eq_refl) Fa). simpl. lia.
  - destruct (g a); simpl; lia.
Qed.

Lemma filter_length_strict (f g : A -> bool) (l : list A) (y : A) :
  (forall z, In z l -> f z = true -> g z = true) ->
  In y l -> g y = true -> f y = false ->
  (length (filter f l) < length (filter g l))%nat.
Proof.
  induction l as [|a l IH]; intros H Hy Gy Fy; simpl; [contradiction|].
  assert (M := filter_length_mono f g l (fun z Hz => H z (or_intror Hz))).
  destruct Hy as [->|Hy].
  - rewrite Gy, Fy. simpl. lia.
  - assert (IH' := IH (fun z Hz => H z (or_intror Hz)) Hy Gy Fy).
    destruct (f a) eqn:Fa.
    + rewrite (H a (or_introl eq_refl) Fa). simpl. lia.
    + destruct (g a); simpl; lia.
Qed.

End Counting.

Section Ranking.

Lemma count_gt_decreases (l : list Qc) (x y : Qc) :
  In y l -> x < y -> (count_gt y l < count_gt x l)%nat.
Proof.
  intros Hy Hxy. unfold count_gt.
  apply (filter_length_strict _ _ _ l y); try assumption.
  - intros z _ Hz. apply Qcltb_true in Hz. apply Qcltb_true.
    now apply (Qclt_trans x y z).
  - now apply Qcltb_true.
  - apply Qcltb_false. apply Qcle_refl.
Qed.

Lemma count_gt_below_length (l : list Qc) (x : Qc) :
  In x l -> (count_gt x l < length l)%nat.
Proof.
  intro Hx. unfold count_gt.
  rewrite <- (filter_all Qc l) at 2.
  apply (filter_length_strict _ _ _ l x); auto.
  apply Qcltb_false. apply Qcle_refl.
Qed.

Lemma count_eq_absent (l : list Qc) (x : Qc) : ~ In x l -> count_eq x l = O.
Proof.
  unfold count_eq. induction l as [|a l IH]; intro H; simpl; [reflexivity|].
  destruct (Qceqb x a) eqn:E.
  - apply Qceqb_true in E. subst a. exfalso. apply H. now left.
  - apply IH. intro I. apply H. now right.
Qed.

Lemma count_eq_single (l : list Qc) (x : Qc) :
  NoDup l -> In x l -> count_eq x l = 1%nat.
Proof.
  intro N. induction N as [|a l Ha N IH]; intro Hx; [contradiction|].
  unfold count_eq in *. simpl. destruct Hx as [->|Hx].
  - rewrite Qceqb_refl. simpl. f_equal. now apply count_eq_absent.
  - destruct (Qceqb x a) eqn:E.
    + apply Qceqb_true in E. subst a. contradiction.
    + now apply IH.
Qed.

Lemma count_eq_positive (l : list Qc) (x : Qc) :
  In x l -> (1 <= count_eq x l)%nat.
Proof.
  unfold count_eq. induction l as [|a l IH]; intro Hx; [contradiction|].
  simpl. destruct Hx as [->|Hx].
  - rewrite Qceqb_refl. simpl. lia.
  - assert (IH' := IH Hx). destruct (Qceqb x a); simpl; lia.
Qed.

Lemma count_gt_eq_length (l : list Qc) (x : Qc) :
  (count_gt x l + count_eq x l <= length l)%nat.
Proof.
  unfold count_gt, count_eq. induction l as [|a l IH]; simpl; [lia|].
  destruct (Qcltb x a) eqn:L, (Qceqb x a) eqn:E; simpl; try lia.
  apply Qcltb_true in L. apply Qceqb_true in E. subst a.
  now apply Qclt_not_eq in L.
Qed.

Lemma average_rank_bound (l : list Qc) (x : Qc) :
  In x l -> average_rank l x <= nat2Qc (length l).
Proof.
  intro Hx. apply place_bound.
  - apply count_gt_eq_length.
  - now apply count_eq_positive.
Qed.

Lemma average_rank_distinct (l : list Qc) (x : Qc) :
  NoDup l -> In x l -> average_rank l x = nat2Qc (S (count_gt x l)).
Proof.
  intros N Hx. unfold average_rank. rewrite count_eq_single by assumption.
  apply place_single.
Qed.

(** Without ties the places are the numbers 1 to [length l], each once. *)
Lemma places_permutation (l : list Qc) :
  NoDup l ->
  Permutation (map (fun x => S (count_gt x l)) l) (seq 1 (length l)).
Proof.
  intro N. apply NoDup_Permutation_bis.
  - apply NoDup_map_NoDup_ForallPairs; [|assumption].
    intros x y Hx Hy E. injection E as E.
    destruct (Qc_dec x y) as [[L|L]|L]; [| |assumption].
    + pose proof (count_gt_decreases l x y Hy L). lia.
    + pose proof (count_gt_decreases l y x Hx L). lia.
  - now rewrite length_map, length_seq.
  - intros n Hn. apply in_map_iff in Hn. destruct Hn as [x [<- Hx]].
    apply in_seq. pose proof (count_gt_below_length l x Hx). lia.
Qed.

Lemma ranks_permutation (l : list Qc) :
  NoDup l ->
  Permutation (map (average_rank l) l) (map nat2Qc (seq 1 (length l))).
Proof.
  intro N.
  rewrite (map_ext_in (average_rank l)
             (fun x => nat2Qc (S (count_gt x l)))).
  - rewrite <- (map_map (fun x => S (count_gt x l)) nat2Qc).
    apply Permutation_map. now apply places_permutation.
  - intros x Hx. now apply average_rank_distinct.
Qed.

Lemma present_option_map (h : Qc -> Qc) (r : list val) :
  present (map (option_map h) r) = map h (present r).
Proof.
  induction r as [|[x|] r IH]; simpl; [reflexivity| |assumption].
  now rewrite IH.
Qed.

Lemma present_rank_row (r : list val) :
  present (rank_row r) = map (average_rank (present r)) (present r).
Proof. apply present_option_map. Qed.

Lemma rank_row_at (r : list val) (i : nat) :
  at_ (rank_row r) i = option_map (average_rank (present r)) (at_ r i).
Proof.
  unfold rank_row, at_.
  change NaN with (option_map (average_rank (present r)) NaN) at 1.
  apply map_nth.
Qed.

Lemma rank_axis1_row (df : DataFrame) (t : nat) :
  row_at (rank_axis1 df) t = rank_row (row_at df t).
Proof.
  unfold rank_axis1, row_at. change [] with (rank_row []) at 1.
  apply map_nth.
Qed.

Lemma in_present (s : list val) (y : Qc) : In y (present s) <-> In (Some y) s.
Proof.
  unfold present. rewrite in_flat_map. split.
  - intros [[v|] [Hv Hy]]; simpl in Hy; [|contradiction].
    destruct Hy as [->|[]]. assumption.
  - intro H. exists (Some y). split; [assumption|now left].
Qed.

End Ranking.

(** C3, as the script has it.  On every date the rank row has a rank exactly
    where the formation row has a value; the rank of a value is the mean of
    the places its tie group spans (pandas' default [average] method, not an
    ordinal one); and on a date whose non-missing formation returns are
    pairwise different, the ranks are the numbers 1 to N in some order, N
    being the count of non-missing formation returns. *)
Theorem ranks_of_a_date (pivot : DataFrame) (risk_free : Series) (F t : nat) :
  (forall i, at_ (row_at (dict_at (form pivot risk_free) F) t) i = None <->
             at_ (row_at (f_ranks pivot risk_free F) t) i = None) /\
  (forall i x,
      at_ (row_at (dict_at (form pivot risk_free) F) t) i = Some x ->
      at_ (row_at (f_ranks pivot risk_free F) t) i =
      Some (nat2Qc (count_gt x (present (row_at (dict_at (form pivot risk_free) F) t)))
            + (nat2Qc (count_eq x (present (row_at (dict_at (form pivot risk_free) F) t))) + 1)
              * Qc_half)) /\
  (NoDup (present (row_at (dict_at (form pivot risk_free) F) t)) ->
   Permutation
     (present (row_at (f_ranks pivot risk_free F) t))
     (map nat2Qc
          (seq 1 (length (present (row_at (dict_at (form pivot risk_free) F) t)))))).
Proof.
  unfold f_ranks. rewrite rank_axis1_row.
  set (r := row_at (dict_at (form pivot risk_free) F) t).
  split; [|split].
  - intro i. rewrite rank_row_at. destruct (at_ r i); simpl; split; congruence.
  - intros i x Hx. rewrite rank_row_at, Hx. reflexivity.
  - intro N. rewrite present_rank_row. now apply ranks_permutation.
Qed.

Lemma ranks_of_a_date_witness :
  Permutation
    (present (row_at (f_ranks (Sample.prices 3 6) (Sample.rf 6) 5) 5))
    (map nat2Qc [1; 2; 3]%nat).
Proof.
  destruct (ranks_of_a_date (Sample.prices 3 6) (Sample.rf 6) 5 5)
    as [_ [_ H]].
  assert (E : exists a b c,
             present (row_at (dict_at (form (Sample.prices 3 6) (Sample.rf 6)) 5) 5)
             = [a; b; c] /\ a < b /\ b < c).
  { eexists _, _, _. split; [vm_compute; reflexivity|].
    split; vm_compute; reflexivity. }
  destruct E as [a [b [c [E [Lab Lbc]]]]].
  rewrite E in H. apply H.
  assert (Nac := Qclt_not_eq _ _ (Qclt_trans _ _ _ Lab Lbc)).
  apply Qclt_not_eq in Lab, Lbc.
  repeat constructor; simpl; intuition congruence.
Defined.

(** C3, counterexample to the claim as written: two tickers with the same
    prices tie on the 5-day formation return; both get the rank 3/2, so the
    ranks of that date are not the numbers 1 and 2 and the tie is not broken
    by ticker order. *)
Lemma tied_ranks_are_averaged :
  row_at (f_ranks (Sample.table [1; 1]%nat 6) (Sample.rf 6) 5) 5
    = [Sample.q 3 2; Sample.q 3 2] /\
  row_at (f_ranks (Sample.table [1; 1]%nat 6) (Sample.rf 6) 5) 5
    <> [Sample.q 1 1; Sample.q 2 1] /\
  (Permutation
     (present (row_at (f_ranks (Sample.table [1; 1]%nat 6) (Sample.rf 6) 5) 5))
     (map nat2Qc [1; 2]%nat) -> False).
Proof.
  assert (E : row_at (f_ranks (Sample.table [1; 1]%nat 6) (Sample.rf 6) 5) 5
              = [Sample.q 3 2; Sample.q 3 2]) by by_eval.
  split; [assumption|]. split.
  - by_eval.
  - rewrite E. intro P.
    apply Permutation_sym in P.
    apply (Permutation_in (nat2Qc 1)) in P; [|now left].
    simpl in P. destruct P as [P|[P|[]]];
      injection P as P; vm_compute in P; discriminate.
Qed.

Section MaxRank.

Lemma Qcmax_upper (a y m : Qc) : a <= m -> y <= m -> Qcmax a y <= m.
Proof. intros. unfold Qcmax. now destruct (Qcleb a y). Qed.

Lemma Qcmax_left (m y : Qc) : y <= m -> Qcmax m y = m.
Proof.
  intro H. unfold Qcmax. destruct (Qcleb m y) eqn:E; [|reflexivity].
  apply Qcleb_true in E. now apply Qcle_antisym.
Qed.

Lemma Qcmax_right (a m : Qc) : a <= m -> Qcmax a m = m.
Proof.
  intro H. unfold Qcmax. apply Qcleb_true in H. now rewrite H.
Qed.

Lemma fold_max_is (l : list Qc) (a m : Qc) :
  a <= m -> (forall y, In y l -> y <= m) -> a = m \/ In m l ->
  fold_left Qcmax l a = m.
Proof.
  revert a; induction l as [|y l IH]; intros a Ha Hl Hm; simpl.
  - destruct Hm as [Hm|[]]. assumption.
  - apply IH.
    + apply Qcmax_upper; [assumption|]. apply Hl. now left.
    + intros z Hz. apply Hl. now right.
    + destruct Hm as [->|[->|Hm]].
      * left. apply Qcmax_left. apply Hl. now left.
      * left. now apply Qcmax_right.
      * now right.
Qed.

Lemma vmax_is (s : list val) (m : Qc) :
  In (Some m) s -> (forall y, In (Some y) s -> y <= m) -> vmax s = Some m.
Proof.
  intros Hm Hs. unfold vmax.
  apply in_present in Hm.
  assert (Hl : forall y, In y (present s) -> y <= m)
    by (intros y Hy; apply Hs; now apply in_present).
  destruct (present s) as [|a l]; [contradiction|]. f_equal.
  apply fold_max_is.
  - apply Hl. now left.
  - intros y Hy. apply Hl. now right.
  - destruct Hm as [->|Hm]; auto.
Qed.

(** When every other present value of a row is larger than [x], all of them
    count as larger and only [x] itself counts as equal. *)
Lemma all_larger_counts (r : list val) (x : Qc) :
  (forall j y, at_ r j = Some y -> x < y) ->
  count_gt x (present r) = length (present r) /\
  count_eq x (present r) = O.
Proof.
  unfold count_gt, count_eq.
  induction r as [|[y|] r IH]; intro H; simpl; [split; reflexivity| |].
  - assert (L : x < y) by now apply (H O).
    destruct (IH (fun j => H (S j))) as [G E].
    rewrite (proj2 (Qcltb_true x y) L).
    destruct (Qceqb x y) eqn:Q.
    + apply Qceqb_true in Q. now apply Qclt_not_eq in L.
    + simpl. now rewrite G, E.
  - apply IH. intros j. apply (H (S j)).
Qed.

Lemma unique_lowest_counts (r : list val) (i : nat) (x : Qc) :
  at_ r i = Some x ->
  (forall j y, j <> i -> at_ r j = Some y -> x < y) ->
  S (count_gt x (present r)) = length (present r) /\
  count_eq x (present r) = 1%nat.
Proof.
  revert i; induction r as [|v r IH]; intros i Hx H.
  - destruct i; discriminate.
  - destruct i as [|i].
    + unfold at_ in Hx. simpl in Hx. subst v.
      destruct (all_larger_counts r x) as [G E].
      { intros j y Hy. apply (H (S j)); [lia|assumption]. }
      unfold count_gt, count_eq in *. simpl.
      rewrite Qceqb_refl, (proj2 (Qcltb_false x x) (Qcle_refl x)).
      simpl. now rewrite G, E.
    + destruct (IH i Hx) as [G E].
      { intros j y Hj Hy. apply (H (S j)); [lia|assumption]. }
      destruct v as [y|]; [|now split].
      assert (L : x < y) by (apply (H O); [lia|reflexivity]).
      unfold count_gt, count_eq in *. simpl.
      rewrite (proj2 (Qcltb_true x y) L).
      destruct (Qceqb x y) eqn:Q.
      * apply Qceqb_true in Q. now apply Qclt_not_eq in L.
      * simpl. now rewrite G, E.
Qed.

Lemma at_in (r : list val) (i : nat) (x : Qc) :
  at_ r i = Some x -> In (Some x) r.
Proof.
  intro H. unfold at_ in H.
  destruct (Nat.lt_ge_cases i (length r)) as [L|L].
  - rewrite <- H. now apply nth_In.
  - rewrite nth_overflow in H by assumption. discriminate.
Qed.

Lemma max_rank_unique_lowest (r : list val) (i : nat) (x : Qc) :
  at_ r i = Some x ->
  (forall j y, j <> i -> at_ r j = Some y -> x < y) ->
  vmax (rank_row r) = Some (nat2Qc (length (present r))).
Proof.
  intros Hx H.
  destruct (unique_lowest_counts r i x Hx H) as [G E].
  apply vmax_is.
  - apply at_in with (i := i). rewrite rank_row_at, Hx. simpl. f_equal.
    unfold average_rank. rewrite E, <- G. apply place_single.
  - intros q Hq. unfold rank_row in Hq. apply in_map_iff in Hq.
    destruct Hq as [[y|] [Hy Iy]]; [|discriminate].
    injection Hy as <-. apply average_rank_bound. now apply in_present.
Qed.

Lemma max_axis1_at (df : DataFrame) (t : nat) :
  at_ (max_axis1 df) t = vmax (row_at df t).
Proof.
  unfold max_axis1, at_, row_at.
  change NaN with (vmax []) at 1. apply map_nth.
Qed.

End MaxRank.

(** C7, as the script has it.  On a date where one ticker holds the lowest
    non-missing formation return alone, the maximum rank is the count of
    tickers with a non-missing formation return. *)
Theorem max_rank_is_count (pivot : DataFrame) (risk_free : Series)
        (F t i : nat) (x : Qc) :
  cell (dict_at (form pivot risk_free) F) t i = Some x ->
  (forall j y, j <> i ->
               cell (dict_at (form pivot risk_free) F) t j = Some y -> x < y) ->
  at_ (f_max pivot risk_free F) t =
  Some (nat2Qc (length (present (row_at (dict_at (form pivot risk_free) F) t)))).
Proof.
  intros Hx H. unfold f_max. rewrite max_axis1_at, rank_axis1_row.
  now apply (max_rank_unique_lowest _ i x).
Qed.

Lemma max_rank_is_count_witness :
  at_ (f_max (Sample.prices 3 6) (Sample.rf 6) 5) 5 = Some (nat2Qc 3).
Proof.
  assert (E : exists a b c,
             row_at (dict_at (form (Sample.prices 3 6) (Sample.rf 6)) 5) 5
             = [Some a; Some b; Some c] /\ a < b /\ a < c).
  { eexists _, _, _. split; [vm_compute; reflexivity|].
    split; vm_compute; reflexivity. }
  destruct E as [a [b [c [E [Lab Lac]]]]].
  assert (M := max_rank_is_count (Sample.prices 3 6) (Sample.rf 6) 5 5 0 a).
  unfold cell in M. rewrite E in M. apply M; [reflexivity|].
  intros j y Hj Hy.
  destruct j as [|[|[|j]]]; unfold at_ in Hy; simpl in Hy.
  - now elim Hj.
  - now injection Hy as <-.
  - now injection Hy as <-.
  - destruct j; discriminate.
Defined.

(** C7, counterexample to the claim as written: with two tickers tied on the
    formation return, two formation returns are present and the maximum rank
    is 3/2, not 2; on a date without any formation return the maximum rank
    is missing, not 0. *)
Lemma max_rank_of_tied_row :
  length (present
            (row_at (dict_at (form (Sample.table [1; 1]%nat 6) (Sample.rf 6)) 5) 5))
    = 2%nat /\
  at_ (f_max (Sample.table [1; 1]%nat 6) (Sample.rf 6) 5) 5 = Sample.q 3 2 /\
  at_ (f_max (Sample.table [1; 1]%nat 6) (Sample.rf 6) 5) 5 <> Some (nat2Qc 2) /\
  length (present
            (row_at (dict_at (form (Sample.table [1; 1]%nat 6) (Sample.rf 6)) 5) 0))
    = 0%nat /\
  at_ (f_max (Sample.table [1; 1]%nat 6) (Sample.rf 6) 5) 0 = None.
Proof.
  split; [vm_compute; reflexivity|].
  split; [by_eval|]. split; [by_eval|].
  split; vm_compute; reflexivity.
Qed.

(** * The portfolio aggregator *)

Section Sums.

Lemma big_sum_shift (f : nat -> Qc) (n : nat) :
  big_sum f (S n) = f O + big_sum (fun i => f (S i)) n.
Proof.
  induction n as [|n IH].
  - simpl. ring.
  - change (big_sum f (S (S n))) with (big_sum f (S n) + f (S n)).
    rewrite IH. simpl. ring.
Qed.

Lemma big_prod_shift (f : nat -> Qc) (n : nat) :
  big_prod f (S n) = f O * big_prod (fun i => f (S i)) n.
Proof.
  induction n as [|n IH].
  - simpl. ring.
  - change (big_prod f (S (S n))) with (big_prod f (S n) * f (S n)).
    rewrite IH. simpl. ring.
Qed.

Lemma big_sum_ext (f g : nat -> Qc) (n : nat) :
  (forall i, (i < n)%nat -> f i = g i) -> big_sum f n = big_sum g n.
Proof.
  induction n as [|n IH]; intro H; simpl; [reflexivity|].
  rewrite IH, H by auto. reflexivity.
Qed.

Lemma big_sum_zero (f : nat -> Qc) (n : nat) :
  (forall i, (i < n)%nat -> f i = 0) -> big_sum f n = 0.
Proof.
  induction n as [|n IH]; intro H; simpl; [reflexivity|].
  rewrite IH, H by auto. ring.
Qed.

(** The weighted sum of a masked row, missing values skipped, is the weight
    times the sum over the tickers the mask selects. *)
Lemma masked_row_sum (c : Qc) (h : list val) (m : list bool) :
  length m = length h ->
  Qcsum (present (scale c
           (zip_with (fun v (b : bool) => if b then v else NaN) h m))) =
  c * big_sum (fun i => if nth i m false then val0 (nth i h NaN) else 0)
              (length h).
Proof.
  revert m; induction h as [|v h IH]; intros [|b m] E;
    simpl in E; try discriminate.
  - unfold Qcsum. simpl. ring.
  - injection E as E. specialize (IH m E).
    cbn [length]. rewrite big_sum_shift. cbn [nth].
    change (scale c (zip_with (fun v (b : bool) => if b then v else NaN)
                       (v :: h) (b :: m)))
      with (vmul (Some c) (if b then v else NaN)
              :: scale c (zip_with (fun v (b : bool) => if b then v else NaN)
                            h m)).
    destruct b, v as [x|].
    + change (present (vmul (Some c) (Some x) :: ?l))
        with (c * x :: present l).
      rewrite Qcsum_cons, IH. unfold val0. ring.
    + change (present (vmul (Some c) None :: ?l)) with (present l).
      rewrite IH. unfold val0. ring.
    + change (present (vmul (Some c) NaN :: ?l)) with (present l).
      rewrite IH. ring.
    + change (present (vmul (Some c) NaN :: ?l)) with (present l).
      rewrite IH. ring.
Qed.

End Sums.

Section Masks.

Lemma zip_with_map_right {A B C : Type} (g : A -> B -> C) (k : A -> B)
      (r : list A) :
  zip_with g r (map k r) = map (fun v => g v (k v)) r.
Proof. induction r as [|a r IH]; simpl; congruence. Qed.

Lemma long_mask_row (ranks : DataFrame) (t : nat) :
  nth t (long_mask ranks) [] =
  map (fun v => vle v (Some Qc_five)) (row_at ranks t).
Proof.
  unfold long_mask, df_le_const, row_at.
  change (@nil bool) with (map (fun v => vle v (Some Qc_five)) []) at 1.
  apply map_nth.
Qed.

Lemma short_mask_row (ranks : DataFrame) (fmax : Series) (t : nat) :
  (t < length ranks)%nat -> (t < length fmax)%nat ->
  nth t (short_mask ranks fmax) [] =
  map (fun v => vge v (bool2val (veq v (vsub (at_ fmax t) (Some Qc_five)))))
      (row_at ranks t).
Proof.
  intros Hr Hm. unfold short_mask, df_ge_bool, df_eq_axis0, series_sub_const.
  assert (L : length (zip_with (fun r m => map (fun v => veq v m) r) ranks
                        (map (fun v => vsub v (Some Qc_five)) fmax))
              = Nat.min (length ranks) (length fmax))
    by now rewrite zip_with_length, length_map.
  rewrite (zip_with_nth _ _ _ _ [] [] []) by lia.
  rewrite (zip_with_nth _ _ _ _ [] NaN []) by (rewrite ?length_map; lia).
  fold (row_at ranks t).
  fold (at_ (map (fun v => vsub v (Some Qc_five)) fmax) t).
  rewrite at_map by reflexivity.
  exact (zip_with_map_right (fun v (b : bool) => vge v (bool2val b))
           (fun v => veq v (vsub (at_ fmax t) (Some Qc_five)))
           (row_at ranks t)).
Qed.

Lemma long_mask_at (ranks : DataFrame) (t i : nat) :
  mask_at (long_mask ranks) t i = vle (cell ranks t i) (Some Qc_five).
Proof.
  unfold mask_at. rewrite long_mask_row.
  change false with (vle NaN (Some Qc_five)) at 1.
  apply (map_nth (fun v => vle v (Some Qc_five))).
Qed.

Lemma short_mask_at (ranks : DataFrame) (fmax : Series) (t i : nat) :
  (t < length ranks)%nat -> (t < length fmax)%nat ->
  mask_at (short_mask ranks fmax) t i =
  vge (cell ranks t i)
      (bool2val (veq (cell ranks t i) (vsub (at_ fmax t) (Some Qc_five)))).
Proof.
  intros Hr Hm. unfold mask_at. rewrite short_mask_row by assumption.
  set (g := fun v => vge v (bool2val (veq v (vsub (at_ fmax t) (Some Qc_five))))).
  change false with (g NaN) at 1. apply (map_nth g).
Qed.

Lemma df_where_row (h : DataFrame) (m : list (list bool)) (t : nat) :
  (t < length h)%nat -> (t < length m)%nat ->
  row_at (df_where h m) t =
  zip_with (fun v (b : bool) => if b then v else NaN) (row_at h t) (nth t m []).
Proof.
  intros Hh Hm. unfold df_where, row_at.
  now apply zip_with_nth.
Qed.

Lemma long_mask_length (ranks : DataFrame) :
  length (long_mask ranks) = length ranks.
Proof. apply length_map. Qed.

Lemma short_mask_length (ranks : DataFrame) (fmax : Series) :
  length (short_mask ranks fmax) = Nat.min (length ranks) (length fmax).
Proof.
  unfold short_mask, df_ge_bool, df_eq_axis0, series_sub_const.
  rewrite !zip_with_length, length_map. lia.
Qed.

(** The value of the strategy expression on one date. *)
Lemma long_short_at (ranks : DataFrame) (fmax : Series) (h : DataFrame)
      (t : nat) :
  (t < length ranks)%nat -> (t < length fmax)%nat -> (t < length h)%nat ->
  length (row_at ranks t) = length (row_at h t) ->
  at_ (long_short ranks fmax h) t =
  Some (Qc_fifth * bucket_sum (mask_at (long_mask ranks) t) (cell h t)
                              (length (row_at h t))
        - Qc_fifth * bucket_sum (mask_at (short_mask ranks fmax) t) (cell h t)
                                (length (row_at h t))).
Proof.
  intros Hr Hm Hh Hw. unfold long_short, series_add, apply_axis1, at_.
  assert (L1 : length (df_where h (long_mask ranks)) = Nat.min (length h) (length ranks))
    by (unfold df_where; now rewrite zip_with_length, long_mask_length).
  assert (L2 : length (df_where h (short_mask ranks fmax))
               = Nat.min (length h) (Nat.min (length ranks) (length fmax)))
    by (unfold df_where; now rewrite zip_with_length, short_mask_length).
  rewrite (zip_with_nth _ _ _ _ NaN NaN) by (rewrite length_map; lia).
  rewrite (nth_indep _ NaN (vsum (scale Qc_fifth []))) by (rewrite length_map; lia).
  rewrite (map_nth (fun r => vsum (scale Qc_fifth r))).
  rewrite (nth_indep (map _ (df_where h (short_mask ranks fmax)))
             NaN (vsum (scale (- Qc_fifth) [])))
    by (rewrite length_map; lia).
  rewrite (map_nth (fun r => vsum (scale (- Qc_fifth) r))).
  fold (row_at (df_where h (long_mask ranks)) t).
  fold (row_at (df_where h (short_mask ranks fmax)) t).
  rewrite !df_where_row
    by (rewrite ?long_mask_length, ?short_mask_length; lia).
  unfold vsum, vadd, vlift2. f_equal.
  rewrite !masked_row_sum.
  - unfold bucket_sum, mask_at, cell, at_. ring.
  - rewrite short_mask_row, length_map by assumption. exact Hw.
  - rewrite long_mask_row, length_map. exact Hw.
Qed.

End Masks.

Section Strategies.

Variables (pivot : DataFrame) (risk_free : Series).

Lemma formation_ncols (w : nat) :
  pivot <> [] -> ncols (formation pivot risk_free w) = ncols pivot.
Proof.
  intro H. unfold formation. rewrite apply_columns_ncols.
  - now apply stock_premium_ncols.
  - intro E. apply (f_equal (@length _)) in E.
    rewrite stock_premium_length in E. destruct pivot; simpl in *; congruence.
Qed.

Lemma form_at (F : nat) :
  In F [5; 30; 60; 90; 120]%nat ->
  dict_at (form pivot risk_free) F = formation pivot risk_free F.
Proof.
  intro H. unfold dict_at, form. now rewrite dict_get_map_in.
Qed.

Lemma hpr_at (H : nat) :
  In H [5; 60; 120]%nat ->
  dict_at (hpr pivot risk_free) H =
  apply_columns (series_shift_back H) (formation pivot risk_free H).
Proof.
  intro I. unfold dict_at at 1, hpr. rewrite dict_get_map_in by assumption.
  rewrite form_at; [reflexivity|]. simpl in *. intuition.
Qed.

Lemma hpr_length (H : nat) :
  In H [5; 60; 120]%nat ->
  length (dict_at (hpr pivot risk_free) H) = length pivot.
Proof.
  intro I. rewrite hpr_at by assumption.
  now rewrite apply_columns_length, formation_length.
Qed.

Lemma hpr_row_length (H t : nat) :
  In H [5; 60; 120]%nat -> (t < length pivot)%nat ->
  length (row_at (dict_at (hpr pivot risk_free) H) t) = ncols pivot.
Proof.
  intros I Ht. rewrite hpr_at by assumption.
  rewrite apply_columns_row_length by now rewrite formation_length.
  apply formation_ncols. now apply (nonempty_of_length _ t).
Qed.

Lemma hpr_cell (H t i : nat) :
  In H [5; 60; 120]%nat -> (t < length pivot)%nat -> (i < ncols pivot)%nat ->
  cell (dict_at (hpr pivot risk_free) H) t i =
  cell (formation pivot risk_free H) (t + H) i.
Proof.
  intros I Ht Hi. rewrite hpr_at by assumption.
  rewrite apply_columns_cell.
  - unfold series_shift_back. rewrite at_map_seq.
    + apply column_at.
    + now rewrite column_length, formation_length.
  - now rewrite formation_length.
  - rewrite formation_ncols; [assumption|].
    now apply (nonempty_of_length _ t).
Qed.


Lemma f_ranks_length (F : nat) :
  In F [5; 30; 90]%nat -> length (f_ranks pivot risk_free F) = length pivot.
Proof.
  intro I. unfold f_ranks, rank_axis1.
  rewrite length_map, form_at, formation_length; [reflexivity|].
  simpl in *. intuition.
Qed.

Lemma f_max_length (F : nat) :
  In F [5; 30; 90]%nat -> length (f_max pivot risk_free F) = length pivot.
Proof.
  intro I. unfold f_max, max_axis1. rewrite length_map.
  now apply f_ranks_length.
Qed.

Lemma f_ranks_cell (F t i : nat) :
  cell (f_ranks pivot risk_free F) t i =
  option_map (average_rank (present (row_at (dict_at (form pivot risk_free) F) t)))
             (cell (dict_at (form pivot risk_free) F) t i).
Proof.
  unfold cell, f_ranks. rewrite rank_axis1_row. apply rank_row_at.
Qed.

Lemma f_ranks_row_length (F t : nat) :
  In F [5; 30; 90]%nat -> (t < length pivot)%nat ->
  length (row_at (f_ranks pivot risk_free F) t) = ncols pivot.
Proof.
  intros I Ht. unfold f_ranks. rewrite rank_axis1_row.
  unfold rank_row. rewrite length_map, form_at.
  - now apply formation_row_length.
  - simpl in *. intuition.
Qed.


(** The daily return of a strategy on a date of the index. *)
Lemma portfolio_at (F H t : nat) :
  In F [5; 30; 90]%nat -> In H [5; 60; 120]%nat -> (t < length pivot)%nat ->
  at_ (portfolio pivot risk_free F H) t =
  Some (Qc_fifth
          * bucket_sum (mask_at (long_mask (f_ranks pivot risk_free F)) t)
                       (cell (dict_at (hpr pivot risk_free) H) t)
                       (ncols pivot)
        - Qc_fifth
          * bucket_sum (mask_at (short_mask (f_ranks pivot risk_free F)
                                            (f_max pivot risk_free F)) t)
                       (cell (dict_at (hpr pivot risk_free) H) t)
                       (ncols pivot)).
Proof.
  intros IF IH Ht. unfold portfolio.
  rewrite long_short_at.
  - now rewrite hpr_row_length.
  - now rewrite f_ranks_length.
  - now rewrite f_max_length.
  - now rewrite hpr_length.
  - now rewrite f_ranks_row_length, hpr_row_length.
Qed.

(** The nine series of the script are the strategies of the three formation
    windows 5, 30, 90 and the three holding windows 5, 60, 120. *)
Lemma portfolios_are_the_nine :
  portfolios pivot risk_free =
  map (fun FH => portfolio pivot risk_free (fst FH) (snd FH))
      (list_prod [5; 30; 90]%nat [5; 60; 120]%nat).
Proof. reflexivity. Qed.

Lemma portfolio_length (F H : nat) :
  In F [5; 30; 90]%nat -> In H [5; 60; 120]%nat ->
  length (portfolio pivot risk_free F H) = length pivot.
Proof.
  intros IF IH. unfold portfolio, long_short, series_add, apply_axis1, df_where.
  rewrite !zip_with_length, !length_map, !zip_with_length.
  rewrite long_mask_length, short_mask_length.
  rewrite f_ranks_length, f_max_length, hpr_length by assumption. lia.
Qed.

End Strategies.

Section Buckets.


(** A rank is at least 1. *)
Lemma place_lower (g e : nat) :
  (1 <= e)%nat -> 1 <= nat2Qc g + (nat2Qc e + 1) * Qc_half.
Proof.
  intro H. unfold Qcle, nat2Qc, Qc_half, Qcplus, Qcmult, Q2Qc.
  cbn [this]. rewrite !Qred_correct.
  unfold Qle, Qplus, Qmult, inject_Z. cbn [Qnum Qden]. lia.
Qed.

Lemma rank_row_lower (r : list val) (i : nat) (q : Qc) :
  at_ (rank_row r) i = Some q -> 1 <= q.
Proof.
  rewrite rank_row_at. destruct (at_ r i) as [x|] eqn:E; [|discriminate].
  simpl. intro H. injection H as <-. apply place_lower.
  apply count_eq_positive. apply in_present. now apply (at_in r i).
Qed.

(** The comparison of a rank with a boolean holds for every rank: a rank is
    at least 1, and the boolean is 0 or 1. *)
Lemma vge_bool (q : Qc) (b : bool) : 1 <= q -> vge (Some q) (bool2val b) = true.
Proof.
  intro H. simpl. apply Qcleb_true. destruct b; [assumption|].
  apply Qcle_trans with (y := 1); [|assumption].
  apply Qcleb_true. vm_compute. reflexivity.
Qed.

(** The short mask of the script selects every ranked ticker. *)
Lemma short_mask_is_ranked (pivot : DataFrame) (risk_free : Series)
      (F t i : nat) :
  In F [5; 30; 90]%nat -> (t < length pivot)%nat ->
  mask_at (short_mask (f_ranks pivot risk_free F) (f_max pivot risk_free F)) t i
  = match cell (f_ranks pivot risk_free F) t i with
    | Some _ => true
    | None => false
    end.
Proof.
  intros I Ht.
  rewrite short_mask_at by now rewrite ?f_ranks_length, ?f_max_length.
  destruct (cell (f_ranks pivot risk_free F) t i) as [q|] eqn:E;
    [|reflexivity].
  apply vge_bool. unfold cell, f_ranks in E. rewrite rank_axis1_row in E.
  now apply rank_row_lower in E.
Qed.

End Buckets.




(** C2, the script at eight sample tickers over twelve dates, formation 5,
    on the sixth date.  The ranks are 8 to 1 and the maximum rank is 8; the
    tickers of rank at least 8 - 5 are the six of ranks 3 to 8, but the short
    mask of the script holds all eight tickers, and the daily return of the
    5/5 strategy is the one of that eight-ticker bucket. *)
Theorem short_bucket_holds_every_ranked_ticker :
  row_at (f_ranks (Sample.prices 8 12) (Sample.rf 12) 5) 5
    = map (fun k => Some (nat2Qc k)) [8; 7; 6; 5; 4; 3; 2; 1]%nat /\
  at_ (f_max (Sample.prices 8 12) (Sample.rf 12) 5) 5 = Some (nat2Qc 8) /\
  map (spec_short (f_ranks (Sample.prices 8 12) (Sample.rf 12) 5)
                  (f_max (Sample.prices 8 12) (Sample.rf 12) 5) 5) (seq 0 8)
    = [true; true; true; true; true; true; false; false] /\
  nth 5 (short_mask (f_ranks (Sample.prices 8 12) (Sample.rf 12) 5)
                    (f_max (Sample.prices 8 12) (Sample.rf 12) 5)) []
    = [true; true; true; true; true; true; true; true] /\
  at_ (portfolio (Sample.prices 8 12) (Sample.rf 12) 5 5) 5
    = Sample.q (-18759676647) 50000000000 /\
  at_ (portfolio (Sample.prices 8 12) (Sample.rf 12) 5 5) 5 <>
  Some (Qc_fifth
          * bucket_sum
              (mask_at (long_mask (f_ranks (Sample.prices 8 12) (Sample.rf 12) 5)) 5)
              (cell (dict_at (hpr (Sample.prices 8 12) (Sample.rf 12)) 5) 5) 8
        - Qc_fifth
          * bucket_sum
              (spec_short (f_ranks (Sample.prices 8 12) (Sample.rf 12) 5)
                          (f_max (Sample.prices 8 12) (Sample.rf 12) 5) 5)
              (cell (dict_at (hpr (Sample.prices 8 12) (Sample.rf 12)) 5) 5) 8).
Proof.
  split; [by_eval|]. split; [by_eval|].
  split; [vm_compute; reflexivity|].
  split; [vm_compute; reflexivity|].
  split; by_eval.
Qed.



Section Cumulative.



End Cumulative.



(** * The performance summary *)

(** C9.  In every one of the 9 rows of the summary, the [port diff] entry is
    the [port avg rets] entry minus the [snp avg rets] entry; the
    [snp avg rets] entry is the mean of the market premium in all rows, and
    the [port avg rets] entry is the average of the row's strategy. *)
Theorem port_diff_is_the_difference (pivot : DataFrame)
        (snp_prices risk_free : Series) (k : nat) :
  (k < 9)%nat ->
  nth k (port_diff (port_perform pivot snp_prices risk_free)) NaN =
    vsub (nth k (port_avg_rets (port_perform pivot snp_prices risk_free)) NaN)
         (nth k (snp_avg_rets (port_perform pivot snp_prices risk_free)) NaN) /\
  nth k (snp_avg_rets (port_perform pivot snp_prices risk_free)) NaN =
    vmean (market_premium snp_prices risk_free) /\
  nth k (port_avg_rets (port_perform pivot snp_prices risk_free)) NaN =
    np_average (nth k (portfolios pivot risk_free) []) /\
  length (port_diff (port_perform pivot snp_prices risk_free)) = 9%nat.
Proof.
  intro Hk. unfold port_perform. cbn [port_diff port_avg_rets snp_avg_rets].
  assert (L : length (avg_rets pivot risk_free) = 9%nat) by reflexivity.
  rewrite L.
  split; [|split; [|split]].
  - apply zip_with_nth; [lia|now rewrite repeat_length].
  - fold (at_ (repeat (vmean (market_premium snp_prices risk_free)) 9) k).
    now apply at_repeat.
  - unfold avg_rets.
    rewrite (nth_indep _ NaN (np_average [])) by (rewrite length_map; simpl; lia).
    apply map_nth.
  - rewrite zip_with_length, L, repeat_length. reflexivity.
Qed.

Lemma port_diff_is_the_difference_witness :
  nth 0 (port_diff (port_perform (Sample.prices 6 12) (Sample.snp 12)
                                 (Sample.rf 12))) NaN =
    vsub (nth 0 (port_avg_rets (port_perform (Sample.prices 6 12)
                                  (Sample.snp 12) (Sample.rf 12))) NaN)
         (nth 0 (snp_avg_rets (port_perform (Sample.prices 6 12)
                                 (Sample.snp 12) (Sample.rf 12))) NaN) /\
  nth 0 (snp_avg_rets (port_perform (Sample.prices 6 12) (Sample.snp 12)
                                    (Sample.rf 12))) NaN = Sample.q 1 25.
Proof.
  destruct (port_diff_is_the_difference (Sample.prices 6 12) (Sample.snp 12)
              (Sample.rf 12) 0 ltac:(lia)) as [H1 [H2 _]].
  split; [exact H1|]. rewrite H2. by_eval.
Defined.

(** * Further properties of the script *)

(** ** Forward fill and returns *)

Section ForwardFill.

Lemma ffill_from_length (last : val) (s : Series) :
  length (ffill_from last s) = length s.
Proof.
  revert last; induction s as [|[x|] s IH]; intro last; simpl;
    try rewrite IH; reflexivity.
Qed.

Lemma ffill_from_keeps (last : val) (s : Series) (t : nat) (x : Qc) :
  at_ s t = Some x -> at_ (ffill_from last s) t = Some x.
Proof.
  revert last t; induction s as [|[y|] s IH]; intros last [|t] H;
    try discriminate; unfold at_ in *; simpl in *; try assumption;
    now apply IH.
Qed.

Lemma ffill_from_first (last : val) (s : Series) :
  s <> [] ->
  at_ (ffill_from last s) 0 =
  match at_ s 0 with Some x => Some x | None => last end.
Proof. destruct s as [|[x|] s]; intro H; [congruence| |]; reflexivity. Qed.

Lemma ffill_from_cons (last v : val) (s : Series) :
  exists l, ffill_from last (v :: s) = l :: ffill_from l s.
Proof. destruct v as [x|]; [exists (Some x)|exists last]; reflexivity. Qed.

Lemma ffill_from_carries (last : val) (s : Series) (t : nat) :
  (S t < length s)%nat -> at_ s (S t) = None ->
  at_ (ffill_from last s) (S t) = at_ (ffill_from last s) t.
Proof.
  revert last t; induction s as [|v s IH]; intros last t L H;
    [simpl in L; lia|].
  simpl in L. destruct (ffill_from_cons last v s) as [l ->].
  change (at_ (l :: ffill_from l s) (S t)) with (at_ (ffill_from l s) t).
  change (at_ (v :: s) (S t)) with (at_ s t) in H.
  destruct t as [|t].
  - rewrite ffill_from_first, H; [reflexivity|].
    destruct s; simpl in L; [lia|discriminate].
  - change (at_ (l :: ffill_from l s) (S t)) with (at_ (ffill_from l s) t).
    apply IH; [lia|exact H].
Qed.

Lemma ffill_from_stays (last : val) (s : Series) (t u : nat) :
  at_ (ffill_from last s) t <> None -> (t <= u)%nat -> (u < length s)%nat ->
  at_ (ffill_from last s) u <> None.
Proof.
  intros H L U. induction L as [|u L IH]; [assumption|].
  destruct (at_ s (S u)) as [x|] eqn:E.
  - rewrite (ffill_from_keeps last s (S u) x E). discriminate.
  - rewrite ffill_from_carries by assumption. apply IH. lia.
Qed.

Lemma ffill_from_idempotent (last : val) (s : Series) :
  ffill_from last (ffill_from last s) = ffill_from last s.
Proof.
  revert last; induction s as [|[x|] s IH]; intro last; simpl.
  - reflexivity.
  - now rewrite IH.
  - destruct last as [y|]; simpl; now rewrite IH.
Qed.

Lemma column_apply_columns (f : Series -> Series) (df : DataFrame) (i : nat) :
  (forall s, length (f s) = length s) -> (i < ncols df)%nat ->
  column (apply_columns f df) i = f (column df i).
Proof.
  intros Hf Hi. apply (nth_ext _ _ NaN NaN).
  - now rewrite column_length, apply_columns_length, Hf, column_length.
  - intros t Ht. rewrite column_length, apply_columns_length in Ht.
    fold (at_ (column (apply_columns f df) i) t).
    rewrite column_at. now apply apply_columns_cell.
Qed.

Lemma stock_prices_cell (pivot : DataFrame) (t i : nat) :
  (t < length pivot)%nat -> (i < ncols pivot)%nat ->
  cell (stock_prices pivot) t i = at_ (series_ffill (column pivot i)) t.
Proof. intros. now apply apply_columns_cell. Qed.

Lemma pct_change_at (s : Series) (t : nat) :
  (t < length s)%nat ->
  at_ (series_pct_change s) t =
  vsub (vdiv (at_ (series_ffill s) t)
             (match t with
              | O => NaN
              | S u => at_ (series_ffill s) u
              end))
       (Some 1).
Proof.
  intro H. unfold series_pct_change. rewrite at_map by reflexivity.
  assert (L : length (series_ffill s) = length s) by apply ffill_from_length.
  unfold at_ at 1.
  rewrite (zip_with_nth vdiv _ _ _ NaN NaN)
    by (unfold series_shift1; rewrite ?length_map, ?length_seq; lia).
  fold (at_ (series_ffill s) t).
  fold (at_ (series_shift1 (series_ffill s)) t).
  unfold series_shift1. rewrite at_map_seq by lia. reflexivity.
Qed.

Lemma Qcdiv_self_minus_one (q : Qc) : q <> 0 -> q / q - 1 = 0.
Proof. intro H. field. assumption. Qed.

End ForwardFill.

(** X1.  The forward-filled price table keeps every price of the input
    table, repeats the price of the date before where the input has none,
    is the input on the first date, and once a ticker has a price it has one
    on every later date. *)
Theorem forward_fill_closes_gaps (pivot : DataFrame) (t i : nat) :
  (t < length pivot)%nat -> (i < ncols pivot)%nat ->
  cell (stock_prices pivot) 0 i = cell pivot 0 i /\
  (forall x, cell pivot t i = Some x -> cell (stock_prices pivot) t i = Some x) /\
  ((S t < length pivot)%nat -> cell pivot (S t) i = None ->
   cell (stock_prices pivot) (S t) i = cell (stock_prices pivot) t i) /\
  (cell (stock_prices pivot) t i <> None ->
   forall u, (t <= u)%nat -> (u < length pivot)%nat ->
             cell (stock_prices pivot) u i <> None).
Proof.
  intros Ht Hi.
  assert (C : forall u, (u < length pivot)%nat ->
                cell (stock_prices pivot) u i
                = at_ (series_ffill (column pivot i)) u)
    by (intros; now apply stock_prices_cell).
  split; [|split; [|split]].
  - rewrite C by lia. unfold series_ffill. rewrite ffill_from_first.
    + rewrite column_at. now destruct (cell pivot 0 i).
    + intro E. apply (f_equal (@length _)) in E.
      rewrite column_length in E. simpl in E. lia.
  - intros x Hx. rewrite C by assumption.
    apply ffill_from_keeps. now rewrite column_at.
  - intros L Hn. rewrite !C by lia. apply ffill_from_carries.
    + now rewrite column_length.
    + now rewrite column_at.
  - intros Hp u Hu Lu. rewrite C in * by assumption.
    apply (ffill_from_stays _ _ t); try assumption.
    now rewrite column_length.
Qed.

Lemma forward_fill_closes_gaps_witness :
  cell (stock_prices [[Sample.q 3 1]; [NaN]; [Sample.q 4 1]]) 1 0 =
  cell (stock_prices [[Sample.q 3 1]; [NaN]; [Sample.q 4 1]]) 0 0.
Proof.
  apply (forward_fill_closes_gaps [[Sample.q 3 1]; [NaN]; [Sample.q 4 1]] 0 0);
    simpl; try lia; reflexivity.
Defined.

(** X2.  On two consecutive dates with prices [q] then [p] in the
    forward-filled table, [q] not zero, the return of the second date is
    [p/q - 1] and the premium is that return minus the risk-free rate of the
    date, missing where the rate is; on the first date the return and the
    premium are missing. *)
Theorem stock_return_is_price_ratio (pivot : DataFrame) (risk_free : Series)
        (t i : nat) (p q : Qc) :
  (S t < length pivot)%nat -> (i < ncols pivot)%nat ->
  cell (stock_prices pivot) t i = Some q ->
  cell (stock_prices pivot) (S t) i = Some p ->
  q <> 0 ->
  cell (stock_rets pivot) (S t) i = Some (p / q - 1) /\
  cell (stock_premium pivot risk_free) (S t) i
    = vsub (Some (p / q - 1)) (at_ risk_free (S t)) /\
  cell (stock_rets pivot) 0 i = None /\
  cell (stock_premium pivot risk_free) 0 i = None.
Proof.
  intros Ht Hi Hq Hp Nz.
  assert (N0 : pivot <> []) by now apply (nonempty_of_length _ (S t)).
  assert (P : series_ffill (column (stock_prices pivot) i)
              = column (stock_prices pivot) i).
  { unfold stock_prices. rewrite column_apply_columns; try assumption.
    - apply ffill_from_idempotent.
    - intro s. apply ffill_from_length. }
  assert (R : forall u, (u < length pivot)%nat ->
     cell (stock_rets pivot) u i =
     vsub (vdiv (cell (stock_prices pivot) u i)
                (match u with
                 | O => NaN
                 | S v => cell (stock_prices pivot) v i
                 end)) (Some 1)).
  { intros u Hu. rewrite stock_rets_cell by assumption.
    rewrite pct_change_at by now rewrite column_length, stock_prices_length.
    rewrite P, !column_at. destruct u; [reflexivity|].
    now rewrite column_at. }
  assert (E : cell (stock_rets pivot) (S t) i = Some (p / q - 1)).
  { rewrite R, Hq, Hp by assumption. simpl.
    destruct (Qceqb q 0) eqn:Z; [|reflexivity].
    apply Qceqb_true in Z. contradiction. }
  assert (E0 : cell (stock_rets pivot) 0 i = None).
  { rewrite R by lia. now destruct (cell (stock_prices pivot) 0 i). }
  split; [exact E|]. split; [|split; [exact E0|]].
  - now rewrite stock_premium_cell, E.
  - rewrite stock_premium_cell, E0 by (try assumption; lia). reflexivity.
Qed.

Lemma stock_return_is_price_ratio_witness :
  cell (stock_rets (Sample.prices 3 4)) 2 2 = Sample.q 1 5.
Proof.
  destruct (stock_return_is_price_ratio (Sample.prices 3 4) (Sample.rf 4) 1 2
              (Q2Qc 144) (Q2Qc 120)) as [H _].
  - simpl; lia.
  - simpl; lia.
  - by_eval.
  - by_eval.
  - intro Z. apply Qceqb_true in Z. vm_compute in Z. discriminate.
  - rewrite H. by_eval.
Defined.

(** X3.  The index return pads a missing index price with the last one seen:
    on a date without an index price that follows a date with the non-zero
    price [q], the index return is 0 and the market premium is minus the
    risk-free rate; with the price [p] on that date the return is
    [p/q - 1]. *)
Theorem index_return_pads_gaps (snp_prices risk_free : Series)
        (t : nat) (q : Qc) :
  (S t < length snp_prices)%nat ->
  at_ snp_prices t = Some q -> q <> 0 ->
  (at_ snp_prices (S t) = None ->
   at_ (snp_rets snp_prices) (S t) = Some 0 /\
   at_ (market_premium snp_prices risk_free) (S t)
     = vsub (Some 0) (at_ risk_free (S t))) /\
  (forall p, at_ snp_prices (S t) = Some p ->
   at_ (snp_rets snp_prices) (S t) = Some (p / q - 1) /\
   at_ (market_premium snp_prices risk_free) (S t)
     = vsub (Some (p / q - 1)) (at_ risk_free (S t))).
Proof.
  intros Ht Hq Nz.
  assert (Z : Qceqb q 0 = false).
  { destruct (Qceqb q 0) eqn:Z; [|reflexivity].
    apply Qceqb_true in Z. contradiction. }
  assert (F : at_ (series_ffill snp_prices) t = Some q)
    by now apply ffill_from_keeps.
  assert (M : at_ (market_premium snp_prices risk_free) (S t)
              = vsub (at_ (snp_rets snp_prices) (S t)) (at_ risk_free (S t))).
  { unfold market_premium, series_sub. rewrite at_map_seq; [reflexivity|].
    unfold snp_rets, series_pct_change, series_shift1.
    rewrite length_map, zip_with_length, length_map, length_seq.
    unfold series_ffill. rewrite ffill_from_length. lia. }
  unfold snp_rets in *. split.
  - intro Hn. rewrite M, pct_change_at by assumption.
    unfold series_ffill in *.
    rewrite ffill_from_carries, F by assumption. simpl. rewrite Z. simpl.
    now rewrite Qcdiv_self_minus_one.
  - intros p Hp. rewrite M, pct_change_at by assumption.
    unfold series_ffill in *.
    rewrite (ffill_from_keeps _ _ _ _ Hp), F. simpl. now rewrite Z.
Qed.

Lemma index_return_pads_gaps_witness :
  at_ (snp_rets [Sample.q 10 1; NaN; Sample.q 11 1]) 1 = Some 0.
Proof.
  destruct (index_return_pads_gaps [Sample.q 10 1; NaN; Sample.q 11 1]
              (Sample.rf 3) 0 (Q2Qc 10)) as [H _].
  - simpl; lia.
  - reflexivity.
  - intro Z. apply Qceqb_true in Z. vm_compute in Z. discriminate.
  - now apply H.
Defined.

(** ** Shapes *)

Section Shapes.

Variables (pivot : DataFrame) (risk_free : Series).

Lemma stock_prices_row_length (t : nat) :
  (t < length pivot)%nat ->
  length (row_at (stock_prices pivot) t) = ncols pivot.
Proof. intro H. now apply apply_columns_row_length. Qed.

Lemma stock_rets_row_length (t : nat) :
  (t < length pivot)%nat ->
  length (row_at (stock_rets pivot) t) = ncols pivot.
Proof.
  intro H. unfold stock_rets. rewrite apply_columns_row_length.
  - apply stock_prices_ncols. now apply (nonempty_of_length _ t).
  - now rewrite stock_prices_length.
Qed.

Lemma stock_premium_row_length (t : nat) :
  (t < length pivot)%nat ->
  length (row_at (stock_premium pivot risk_free) t) = ncols pivot.
Proof.
  intro H. unfold stock_premium. rewrite apply_columns_row_length.
  - apply stock_rets_ncols. now apply (nonempty_of_length _ t).
  - now rewrite stock_rets_length.
Qed.

Lemma cumrets_length (s : Series) : length (cumrets s) = length s.
Proof.
  unfold cumrets, series_sub_const, series_add_const, cumprod.
  rewrite length_map.
  assert (C : forall a l, length (cumprod_from a l) = length l).
  { intros a l; revert a; induction l as [|[x|] l IH]; intro a; simpl;
      try rewrite IH; reflexivity. }
  now rewrite C, length_map.
Qed.

End Shapes.

(** X4.  Every table the script derives keeps the shape of the price table:
    as many date rows, and in each row as many tickers as the first row of
    the price table; the rank maxima, the daily returns and the cumulative
    returns have one entry per date. *)
Theorem tables_keep_the_shape (pivot : DataFrame) (risk_free : Series)
        (W H F t : nat) :
  In W [5; 30; 60; 90; 120]%nat -> In H [5; 60; 120]%nat ->
  In F [5; 30; 90]%nat -> (t < length pivot)%nat ->
  (length (stock_prices pivot) = length pivot /\
   length (stock_rets pivot) = length pivot /\
   length (stock_premium pivot risk_free) = length pivot /\
   length (dict_at (form pivot risk_free) W) = length pivot /\
   length (dict_at (hpr pivot risk_free) H) = length pivot /\
   length (f_ranks pivot risk_free F) = length pivot) /\
  (length (row_at (stock_prices pivot) t) = ncols pivot /\
   length (row_at (stock_rets pivot) t) = ncols pivot /\
   length (row_at (stock_premium pivot risk_free) t) = ncols pivot /\
   length (row_at (dict_at (form pivot risk_free) W) t) = ncols pivot /\
   length (row_at (dict_at (hpr pivot risk_free) H) t) = ncols pivot /\
   length (row_at (f_ranks pivot risk_free F) t) = ncols pivot) /\
  (length (f_max pivot risk_free F) = length pivot /\
   length (portfolio pivot risk_free F H) = length pivot /\
   length (cumrets (portfolio pivot risk_free F H)) = length pivot).
Proof.
  intros IW IH IF Ht. split; [|split].
  - rewrite stock_prices_length, stock_rets_length, stock_premium_length,
      form_at, formation_length, hpr_length, f_ranks_length by assumption.
    repeat split.
  - rewrite stock_prices_row_length, stock_rets_row_length,
      stock_premium_row_length, form_at, formation_row_length,
      hpr_row_length, f_ranks_row_length by assumption.
    repeat split.
  - rewrite cumrets_length, f_max_length, portfolio_length by assumption.
    repeat split.
Qed.

Lemma tables_keep_the_shape_witness :
  length (row_at (dict_at (hpr (Sample.prices 3 12) (Sample.rf 12)) 60) 7)
  = 3%nat.
Proof.
  apply (tables_keep_the_shape (Sample.prices 3 12) (Sample.rf 12) 5 60 5 7);
    simpl; try tauto; lia.
Defined.

(** ** Windows *)

Section Windows.

Lemma big_prod_ext (f g : nat -> Qc) (n : nat) :
  (forall i, (i < n)%nat -> f i = g i) -> big_prod f n = big_prod g n.
Proof.
  induction n as [|n IH]; intro H; simpl; [reflexivity|].
  rewrite IH, H by auto. reflexivity.
Qed.

Lemma big_prod_rev (f : nat -> Qc) (n : nat) :
  big_prod (fun j => f (n - 1 - j)%nat) n = big_prod f n.
Proof.
  induction n as [|n IH]; [reflexivity|].
  rewrite big_prod_shift.
  rewrite (big_prod_ext _ (fun j => f (n - 1 - j)%nat)).
  - rewrite IH. replace (S n - 1 - 0)%nat with n by lia.
    cbn [big_prod]. ring.
  - intros i Hi. f_equal. lia.
Qed.

(** A product of consecutive price ratios telescopes. *)
Lemma price_ratios_telescope (P : nat -> Qc) (t W : nat) :
  (W <= t)%nat ->
  (forall u, (t - W <= u)%nat -> (u <= t)%nat -> P u <> 0) ->
  big_prod (fun k => 1 + (P (t - k)%nat / P (t - S k)%nat - 1 - 0)) W
  = P t / P (t - W)%nat.
Proof.
  induction W as [|W IH]; intros L Nz.
  - cbn [big_prod]. replace (t - 0)%nat with t by lia.
    field. apply Nz; lia.
  - cbn [big_prod]. rewrite IH.
    + field. split; apply Nz; lia.
    + lia.
    + intros u H1 H2. apply Nz; lia.
Qed.

Lemma stock_rets_from_prices (pivot : DataFrame) (t i : nat) :
  (S t < length pivot)%nat -> (i < ncols pivot)%nat ->
  cell (stock_rets pivot) (S t) i =
  vsub (vdiv (cell (stock_prices pivot) (S t) i)
             (cell (stock_prices pivot) t i)) (Some 1).
Proof.
  intros Ht Hi.
  assert (N0 : pivot <> []) by now apply (nonempty_of_length _ (S t)).
  rewrite stock_rets_cell by assumption.
  rewrite pct_change_at by now rewrite column_length, stock_prices_length.
  unfold stock_prices at 1 2.
  rewrite column_apply_columns; try assumption.
  - unfold series_ffill. rewrite ffill_from_idempotent.
    fold (series_ffill (column pivot i)).
    now rewrite <- !stock_prices_cell by (try assumption; lia).
  - intro s. apply ffill_from_length.
Qed.

End Windows.

(** X5.  The holding return of window [H] on date [t] compounds the premiums
    of the [H] dates after [t], the dates [t+1] to [t+H]: when these exist it
    is the product of [1 + premium(t+k,i)] for [k = 1..H], minus 1, whatever
    the premium of date [t] itself. *)
Theorem holding_compounds_the_next_dates (pivot : DataFrame)
        (risk_free : Series) (H t i : nat) (q : nat -> Qc) :
  In H [5; 60; 120]%nat ->
  (t + H < length pivot)%nat -> (i < ncols pivot)%nat ->
  (forall k, (1 <= k)%nat -> (k <= H)%nat ->
             cell (stock_premium pivot risk_free) (t + k) i = Some (q k)) ->
  cell (dict_at (hpr pivot risk_free) H) t i =
  Some (big_prod (fun j => 1 + q (S j)) H - 1).
Proof.
  intros IH Ht Hi Hq.
  rewrite hpr_cell, formation_cell by (try assumption; lia).
  rewrite (rolling_at_full _ _ _ (fun k => q (H - k)%nat)).
  - rewrite <- (big_prod_rev (fun j => 1 + q (S j)) H).
    f_equal. f_equal. apply big_prod_ext.
    intros j Hj. cbv beta. f_equal. f_equal. lia.
  - lia.
  - now rewrite column_length, stock_premium_length.
  - intros k Hk. rewrite column_at.
    replace (t + H - k)%nat with (t + (H - k))%nat by lia.
    apply Hq; lia.
Qed.

Lemma holding_compounds_the_next_dates_witness :
  cell (dict_at (hpr (Sample.prices 3 12) (Sample.rf 12)) 5) 5 2 =
  Some (big_prod (fun _ => 1 + Q2Qc (19 # 100)) 5 - 1).
Proof.
  apply (holding_compounds_the_next_dates (Sample.prices 3 12) (Sample.rf 12)
           5 5 2 (fun _ => Q2Qc (19 # 100))).
  - simpl; tauto.
  - simpl; lia.
  - simpl; lia.
  - intros k H1 H2.
    do 6 (destruct k as [|k]; [try lia; by_eval|]). lia.
Defined.

(** X6.  Where the risk-free rate is 0 on the dates of the window and the
    forward-filled prices of the ticker exist and are not zero from date
    [t-W] to date [t], the formation return of window [W] on date [t] is the
    price ratio [price(t) / price(t-W) - 1]. *)
Theorem formation_is_price_ratio (pivot : DataFrame) (risk_free : Series)
        (W t i : nat) (P : nat -> Qc) :
  In W [5; 30; 60; 90; 120]%nat ->
  (t < length pivot)%nat -> (i < ncols pivot)%nat -> (W <= t)%nat ->
  (forall u, (t - W <= u)%nat -> (u <= t)%nat ->
             cell (stock_prices pivot) u i = Some (P u) /\ P u <> 0) ->
  (forall u, (t - W < u)%nat -> (u <= t)%nat -> at_ risk_free u = Some 0) ->
  cell (dict_at (form pivot risk_free) W) t i = Some (P t / P (t - W)%nat - 1).
Proof.
  intros IW Ht Hi L HP Hr.
  rewrite form_at, formation_cell by assumption.
  rewrite (rolling_at_full _ _ _
             (fun k => P (t - k)%nat / P (t - S k)%nat - 1 - 0)).
  - rewrite price_ratios_telescope; [reflexivity|assumption|].
    intros u H1 H2. now apply HP.
  - lia.
  - now rewrite column_length, stock_premium_length.
  - intros k Hk. rewrite column_at.
    replace (t - k)%nat with (S (t - S k)) by lia.
    rewrite stock_premium_cell, stock_rets_from_prices by (try assumption; lia).
    destruct (HP (S (t - S k))) as [E1 N1]; try lia.
    destruct (HP (t - S k)%nat) as [E2 N2]; try lia.
    rewrite E1, E2, Hr by lia. simpl.
    destruct (Qceqb (P (t - S k)%nat) 0) eqn:Z.
    + apply Qceqb_true in Z. contradiction.
    + reflexivity.
Qed.

Lemma formation_is_price_ratio_witness :
  cell (dict_at (form (Sample.prices 3 7) (repeat (Some 0) 7)) 5) 5 2 =
  Some (Sample.price (Q2Qc (6 # 5)) 5 / Sample.price (Q2Qc (6 # 5)) 0 - 1).
Proof.
  apply (formation_is_price_ratio (Sample.prices 3 7) (repeat (Some 0) 7)
           5 5 2 (Sample.price (Q2Qc (6 # 5)))).
  - simpl; tauto.
  - simpl; lia.
  - simpl; lia.
  - lia.
  - intros u _ H2.
    do 6 (destruct u as [|u];
          [split; [by_eval|
                   intro Z; apply Qceqb_true in Z; vm_compute in Z;
                   discriminate]|]).
    lia.
  - intros u _ H2.
    do 6 (destruct u as [|u]; [reflexivity|]). lia.
Defined.

(** ** Ranks *)

Section RankOrder.

Lemma nat2Qc_plus (a b : nat) : nat2Qc (a + b) = nat2Qc a + nat2Qc b.
Proof.
  apply Qc_is_canon. unfold nat2Qc, Qcplus, Q2Qc. cbn [this].
  rewrite !Qred_correct, Nat2Z.inj_add. now rewrite inject_Z_plus.
Qed.

Lemma Qc_half_inverse : Qc_half = 1 / (1 + 1).
Proof. apply Qceqb_true. vm_compute. reflexivity. Qed.

Lemma Qc_two_not_zero : 1 + 1 <> 0.
Proof. intro Z. apply Qceqb_true in Z. vm_compute in Z. discriminate. Qed.

(** A place further down is strictly larger. *)
Lemma place_lt (g e g' e' : nat) :
  (g + e <= g')%nat -> (1 <= e)%nat -> (1 <= e')%nat ->
  nat2Qc g + (nat2Qc e + 1) * Qc_half
  < nat2Qc g' + (nat2Qc e' + 1) * Qc_half.
Proof.
  intros H1 H2 H3. unfold Qclt, nat2Qc, Qc_half, Qcplus, Qcmult, Q2Qc.
  cbn [this]. rewrite !Qred_correct.
  unfold Qlt, Qplus, Qmult, inject_Z. cbn [Qnum Qden]. lia.
Qed.

Lemma count_gt_step (l : list Qc) (x y : Qc) :
  y < x -> (count_gt x l + count_eq x l <= count_gt y l)%nat.
Proof.
  intro L. unfold count_gt, count_eq.
  induction l as [|a l IH]; simpl; [lia|].
  destruct (Qcltb y a) eqn:Y.
  - destruct (Qcltb x a) eqn:X, (Qceqb x a) eqn:E; simpl; try lia.
    apply Qcltb_true in X. apply Qceqb_true in E. subst a.
    now apply Qclt_not_eq in X.
  - apply Qcltb_false in Y.
    assert (A : a < x) by now apply (Qcle_lt_trans a y x).
    destruct (Qcltb x a) eqn:X.
    + apply Qcltb_true in X. exfalso.
      apply (Qclt_not_le _ _ X). now apply Qclt_le_weak.
    + destruct (Qceqb x a) eqn:E; [|simpl; lia].
      apply Qceqb_true in E. subst a. now apply Qclt_not_eq in A.
Qed.

Lemma average_rank_decreases (l : list Qc) (x y : Qc) :
  In x l -> In y l -> y < x -> average_rank l x < average_rank l y.
Proof.
  intros Hx Hy L. apply place_lt.
  - now apply count_gt_step.
  - now apply count_eq_positive.
  - now apply count_eq_positive.
Qed.

Lemma lowest_counts (l : list Qc) (x : Qc) :
  (forall y, In y l -> x <= y) ->
  (count_gt x l + count_eq x l)%nat = length l.
Proof.
  unfold count_gt, count_eq. induction l as [|a l IH]; intro H;
    [reflexivity|].
  assert (IH' := IH (fun y Hy => H y (or_intror Hy))).
  assert (A := H a (or_introl eq_refl)). simpl.
  destruct (Qcle_lt_or_eq _ _ A) as [L|E].
  - rewrite (proj2 (Qcltb_true x a) L).
    destruct (Qceqb x a) eqn:Q.
    + apply Qceqb_true in Q. now apply Qclt_not_eq in L.
    + simpl. lia.
  - subst a. rewrite Qceqb_refl, (proj2 (Qcltb_false x x) (Qcle_refl x)).
    simpl. lia.
Qed.

End RankOrder.

(** X7.  On every date, two tickers with formation returns get ranks between
    1 and the count of tickers with a formation return; the ticker with the
    larger formation return gets the strictly smaller rank, and equal
    formation returns get equal ranks. *)
Theorem ranks_follow_formation_returns (pivot : DataFrame)
        (risk_free : Series) (F t i j : nat) (x y : Qc) :
  cell (dict_at (form pivot risk_free) F) t i = Some x ->
  cell (dict_at (form pivot risk_free) F) t j = Some y ->
  exists r s,
    cell (f_ranks pivot risk_free F) t i = Some r /\
    cell (f_ranks pivot risk_free F) t j = Some s /\
    1 <= r /\
    r <= nat2Qc (length (present (row_at (dict_at (form pivot risk_free) F) t))) /\
    (y < x -> r < s) /\
    (x = y -> r = s).
Proof.
  intros Hx Hy.
  set (l := present (row_at (dict_at (form pivot risk_free) F) t)).
  assert (Ix : In x l) by (apply in_present; now apply (at_in _ i)).
  assert (Iy : In y l) by (apply in_present; now apply (at_in _ j)).
  exists (average_rank l x), (average_rank l y).
  rewrite !f_ranks_cell, Hx, Hy. fold l.
  split; [reflexivity|]. split; [reflexivity|].
  split; [|split; [|split]].
  - apply place_lower. now apply count_eq_positive.
  - now apply average_rank_bound.
  - now apply average_rank_decreases.
  - now intros ->.
Qed.

Lemma ranks_follow_formation_returns_witness :
  exists r s,
    cell (f_ranks (Sample.prices 3 6) (Sample.rf 6) 5) 5 2 = Some r /\
    cell (f_ranks (Sample.prices 3 6) (Sample.rf 6) 5) 5 0 = Some s /\
    r < s.
Proof.
  assert (E : exists x y,
             cell (dict_at (form (Sample.prices 3 6) (Sample.rf 6)) 5) 5 2
               = Some x /\
             cell (dict_at (form (Sample.prices 3 6) (Sample.rf 6)) 5) 5 0
               = Some y /\ y < x).
  { eexists _, _. split; [vm_compute; reflexivity|].
    split; vm_compute; reflexivity. }
  destruct E as [x [y [Hx [Hy L]]]].
  destruct (ranks_follow_formation_returns _ _ _ _ _ _ _ _ Hx Hy)
    as [r [s [Hr [Hs [_ [_ [Lt _]]]]]]].
  exists r, s. auto.
Defined.

(** X8.  On a date where ticker [i] has the lowest formation return, the
    maximum rank is the rank of ticker [i]; with [N] formation returns
    present and [m] of them equal to the lowest one it is
    [N - (m - 1)/2]. *)
Theorem max_rank_is_rank_of_lowest (pivot : DataFrame) (risk_free : Series)
        (F t i : nat) (x : Qc) :
  cell (dict_at (form pivot risk_free) F) t i = Some x ->
  (forall j y, cell (dict_at (form pivot risk_free) F) t j = Some y -> x <= y) ->
  at_ (f_max pivot risk_free F) t = cell (f_ranks pivot risk_free F) t i /\
  at_ (f_max pivot risk_free F) t =
  Some (nat2Qc (length (present (row_at (dict_at (form pivot risk_free) F) t)))
        - (nat2Qc (count_eq x
                     (present (row_at (dict_at (form pivot risk_free) F) t)))
           - 1) * Qc_half).
Proof.
  intros Hx Hmin.
  set (r := row_at (dict_at (form pivot risk_free) F) t) in *.
  set (l := present r).
  assert (Ix : In x l) by (apply in_present; now apply (at_in _ i)).
  assert (Hl : forall y, In y l -> x <= y).
  { intros y Hy. apply in_present in Hy.
    destruct (In_nth _ _ NaN Hy) as [j [_ Hj]]. now apply (Hmin j). }
  assert (M : at_ (f_max pivot risk_free F) t = Some (average_rank l x)).
  { unfold f_max. rewrite max_axis1_at, rank_axis1_row. fold r.
    apply vmax_is.
    - apply (at_in _ i). change (at_ r i) with (cell (dict_at (form pivot risk_free) F) t i) in *.
      rewrite rank_row_at.
      change (at_ r i) with (cell (dict_at (form pivot risk_free) F) t i).
      now rewrite Hx.
    - intros q Hq. unfold rank_row in Hq. apply in_map_iff in Hq.
      destruct Hq as [[y|] [Hy Iy]]; [|discriminate].
      injection Hy as <-. apply in_present in Iy. fold l in Iy |- *.
      destruct (Qcle_lt_or_eq _ _ (Hl y Iy)) as [L|<-].
      + apply Qclt_le_weak. now apply average_rank_decreases.
      + apply Qcle_refl. }
  split.
  - rewrite M, f_ranks_cell, Hx. reflexivity.
  - rewrite M. f_equal. unfold average_rank.
    rewrite <- (lowest_counts l x Hl), nat2Qc_plus, Qc_half_inverse.
    field. apply Qc_two_not_zero.
Qed.

Lemma max_rank_is_rank_of_lowest_witness :
  at_ (f_max (Sample.table [1; 1; 2]%nat 6) (Sample.rf 6) 5) 5 = Sample.q 5 2.
Proof.
  assert (E : exists a b,
             row_at (dict_at (form (Sample.table [1; 1; 2]%nat 6) (Sample.rf 6)) 5) 5
             = [Some a; Some a; Some b] /\ a < b).
  { eexists _, _. split; [vm_compute; reflexivity|].
    vm_compute. reflexivity. }
  destruct E as [a [b [E L]]].
  destruct (max_rank_is_rank_of_lowest (Sample.table [1; 1; 2]%nat 6)
              (Sample.rf 6) 5 5 0 a) as [_ M].
  - unfold cell. now rewrite E.
  - intros j y Hy. unfold cell in Hy. rewrite E in Hy.
    destruct j as [|[|[|j]]]; unfold at_ in Hy; simpl in Hy.
    + injection Hy as <-. apply Qcle_refl.
    + injection Hy as <-. apply Qcle_refl.
    + injection Hy as <-. now apply Qclt_le_weak.
    + destruct j; discriminate.
  - rewrite M, E. cbn [present flat_map app length].
    unfold count_eq. cbn [filter].
    rewrite Qceqb_refl.
    assert (N : Qceqb a b = false).
    { destruct (Qceqb a b) eqn:Q; [|reflexivity].
      apply Qceqb_true in Q. now apply Qclt_not_eq in L. }
    rewrite N. cbn [length]. by_eval.
Defined.

(** ** Buckets *)

Section BucketFacts.

Lemma big_sum_plus (f g : nat -> Qc) (n : nat) :
  big_sum (fun i => f i + g i) n = big_sum f n + big_sum g n.
Proof.
  induction n as [|n IH]; cbn [big_sum]; [ring|]. rewrite IH. ring.
Qed.

Lemma filter_map_shift {A B : Type} (f : B -> bool) (g : A -> B)
      (l : list A) :
  length (filter f (map g l)) = length (filter (fun a => f (g a)) l).
Proof.
  induction l as [|a l IH]; simpl; [reflexivity|].
  destruct (f (g a)); simpl; now rewrite IH.
Qed.

(** Counting the positions of a row whose value passes a test is counting
    the values that pass it. *)
Lemma filter_positions_from (f : val -> bool) (r : list val) (a : nat) :
  length (filter (fun i => f (nth (i - a) r NaN)) (seq a (length r)))
  = length (filter f r).
Proof.
  revert a; induction r as [|v r IH]; intro a; [reflexivity|].
  cbn [length seq filter]. rewrite Nat.sub_diag.
  change (nth 0 (v :: r) NaN) with v.
  assert (E : filter (fun i => f (nth (i - a) (v :: r) NaN))
                     (seq (S a) (length r))
              = filter (fun i => f (nth (i - S a) r NaN))
                       (seq (S a) (length r))).
  { apply filter_ext_in. intros i Hi. apply in_seq in Hi.
    replace (i - a)%nat with (S (i - S a)) by lia. reflexivity. }
  destruct (f v); cbn [length]; rewrite E, IH; reflexivity.
Qed.

Lemma filter_positions (f : val -> bool) (r : list val) :
  length (filter (fun i => f (nth i r NaN)) (seq 0 (length r)))
  = length (filter f r).
Proof.
  rewrite <- (filter_positions_from f r 0). f_equal.
  apply filter_ext. intro i. now rewrite Nat.sub_0_r.
Qed.

Lemma filter_present (h : Qc -> bool) (r : list val) :
  length (filter (fun v => match v with Some x => h x | None => false end) r)
  = length (filter h (present r)).
Proof.
  induction r as [|[x|] r IH]; [reflexivity| |exact IH].
  change (present (Some x :: r)) with (x :: present r). cbn [filter].
  destruct (h x); cbn [length]; now rewrite IH.
Qed.

Lemma lowest_exists (l : list Qc) :
  l <> [] -> exists m, In m l /\ forall z, In z l -> m <= z.
Proof.
  induction l as [|a l IH]; intro H; [congruence|].
  destruct l as [|b l].
  - exists a. split; [now left|]. intros z [<-|[]]. apply Qcle_refl.
  - destruct IH as [m [Im Hm]]; [discriminate|].
    destruct (Qclt_le_dec a m) as [L|L].
    + exists a. split; [now left|]. intros z [<-|Hz].
      * apply Qcle_refl.
      * apply Qclt_le_weak. apply (Qclt_le_trans _ m); auto.
    + exists m. split; [now right|]. intros z [<-|Hz]; auto.
Qed.

Lemma count_at_least (l : list Qc) (m : Qc) :
  length (filter (fun z => Qcleb m z) l) = (count_gt m l + count_eq m l)%nat.
Proof.
  unfold count_gt, count_eq. induction l as [|a l IH]; [reflexivity|].
  cbn [filter].
  destruct (Qcleb m a) eqn:Le.
  - apply Qcleb_true in Le. destruct (Qcle_lt_or_eq _ _ Le) as [L|E].
    + rewrite (proj2 (Qcltb_true m a) L).
      destruct (Qceqb m a) eqn:Q.
      * apply Qceqb_true in Q. now apply Qclt_not_eq in L.
      * cbn [length]. rewrite IH. lia.
    + subst a. rewrite Qceqb_refl, (proj2 (Qcltb_false m m) (Qcle_refl m)).
      cbn [length]. rewrite IH. lia.
  - assert (La : a < m).
    { apply Qcnot_le_lt. intro C. apply Qcleb_true in C. congruence. }
    rewrite (proj2 (Qcltb_false m a) (Qclt_le_weak _ _ La)).
    destruct (Qceqb m a) eqn:Q.
    + apply Qceqb_true in Q. subst a. now apply Qclt_not_eq in La.
    + exact IH.
Qed.

(** A place [g + (e+1)/2] that is at most 5 has [2g + e + 1 <= 10]. *)
Lemma place_within_five (g e : nat) :
  nat2Qc g + (nat2Qc e + 1) * Qc_half <= Qc_five ->
  (2 * g + e + 1 <= 10)%nat.
Proof.
  unfold Qcle, nat2Qc, Qc_half, Qc_five, Qcplus, Qcmult, Q2Qc.
  cbn [this]. rewrite !Qred_correct.
  unfold Qle, Qplus, Qmult, inject_Z. cbn [Qnum Qden]. lia.
Qed.

Lemma top_five_size (l : list Qc) :
  (length (filter (fun x => Qcleb (average_rank l x) Qc_five) l) <= 9)%nat /\
  (NoDup l ->
   (length (filter (fun x => Qcleb (average_rank l x) Qc_five) l) <= 5)%nat).
Proof.
  set (B := filter (fun x => Qcleb (average_rank l x) Qc_five) l).
  destruct B as [|b B'] eqn:EB; [simpl; split; intros; lia|].
  destruct (lowest_exists (b :: B')) as [m [Im Hm]]; [discriminate|].
  rewrite <- EB in Im, Hm |- *.
  assert (Im' := Im). unfold B in Im'. apply filter_In in Im'.
  destruct Im' as [Il Rm]. apply Qcleb_true in Rm.
  apply place_within_five in Rm.
  assert (P := count_eq_positive l m Il).
  assert (S : (length B <= count_gt m l + count_eq m l)%nat).
  { rewrite <- count_at_least. unfold B. apply filter_length_mono.
    intros z Hz Rz. apply Qcleb_true. apply Hm.
    apply filter_In. split; assumption. }
  split; [lia|].
  intro N. rewrite (count_eq_single l m N Il) in *. lia.
Qed.

End BucketFacts.

(** X9.  For each formation window of the strategies and every date of the
    index, the short mask of the script holds exactly the tickers that have
    a formation return on that date, so every ticker of the long bucket is
    in the short bucket as well. *)
Theorem short_bucket_is_every_ranked_ticker (pivot : DataFrame)
        (risk_free : Series) (F t i : nat) :
  In F [5; 30; 90]%nat -> (t < length pivot)%nat ->
  (mask_at (short_mask (f_ranks pivot risk_free F) (f_max pivot risk_free F))
           t i = true <->
   cell (dict_at (form pivot risk_free) F) t i <> None) /\
  (mask_at (long_mask (f_ranks pivot risk_free F)) t i = true ->
   mask_at (short_mask (f_ranks pivot risk_free F) (f_max pivot risk_free F))
           t i = true).
Proof.
  intros IF Ht. rewrite short_mask_is_ranked, long_mask_at by assumption.
  rewrite f_ranks_cell.
  destruct (cell (dict_at (form pivot risk_free) F) t i) as [x|]; simpl.
  - split; [split; [discriminate|reflexivity]|reflexivity].
  - split; [split; [discriminate|congruence]|discriminate].
Qed.

Lemma short_bucket_is_every_ranked_ticker_witness :
  mask_at (short_mask (f_ranks (Sample.prices 8 12) (Sample.rf 12) 5)
                      (f_max (Sample.prices 8 12) (Sample.rf 12) 5)) 5 7
  = true.
Proof.
  destruct (short_bucket_is_every_ranked_ticker (Sample.prices 8 12)
              (Sample.rf 12) 5 5 7) as [[_ H] _].
  - simpl; tauto.
  - simpl; lia.
  - apply H. apply val_eqb_neq. vm_compute. reflexivity.
Defined.

(** X10.  Because the long bucket lies inside the short bucket, the long
    side cancels: for each of the nine strategies and every date of the
    index, the daily return is minus 1/5 of the sum of the holding returns
    of the ranked tickers whose rank is above 5, and it is 0 on a date where
    no ticker has a rank above 5. *)
Theorem daily_return_is_short_only (pivot : DataFrame) (risk_free : Series)
        (F H t : nat) :
  In F [5; 30; 90]%nat -> In H [5; 60; 120]%nat -> (t < length pivot)%nat ->
  at_ (portfolio pivot risk_free F H) t =
  Some (- (Qc_fifth
           * bucket_sum
               (fun i => match cell (f_ranks pivot risk_free F) t i with
                         | Some r => negb (Qcleb r Qc_five)
                         | None => false
                         end)
               (cell (dict_at (hpr pivot risk_free) H) t)
               (ncols pivot))) /\
  ((forall i r, (i < ncols pivot)%nat ->
                cell (f_ranks pivot risk_free F) t i = Some r ->
                r <= Qc_five) ->
   at_ (portfolio pivot risk_free F H) t = Some 0).
Proof.
  intros IF IH Ht.
  assert (E : at_ (portfolio pivot risk_free F H) t =
    Some (- (Qc_fifth
           * bucket_sum
               (fun i => match cell (f_ranks pivot risk_free F) t i with
                         | Some r => negb (Qcleb r Qc_five)
                         | None => false
                         end)
               (cell (dict_at (hpr pivot risk_free) H) t)
               (ncols pivot)))).
  { rewrite portfolio_at by assumption. f_equal. unfold bucket_sum.
    rewrite (big_sum_ext
               (fun i => if mask_at (short_mask (f_ranks pivot risk_free F)
                                       (f_max pivot risk_free F)) t i
                         then val0 (cell (dict_at (hpr pivot risk_free) H) t i)
                         else 0)
               (fun i =>
                  (if mask_at (long_mask (f_ranks pivot risk_free F)) t i
                   then val0 (cell (dict_at (hpr pivot risk_free) H) t i)
                   else 0)
                  + (if match cell (f_ranks pivot risk_free F) t i with
                        | Some r => negb (Qcleb r Qc_five)
                        | None => false
                        end
                     then val0 (cell (dict_at (hpr pivot risk_free) H) t i)
                     else 0))).
    - rewrite big_sum_plus. ring.
    - intros i Hi.
      rewrite short_mask_is_ranked, long_mask_at by assumption.
      destruct (cell (f_ranks pivot risk_free F) t i) as [r|]; simpl.
      + destruct (Qcleb r Qc_five); simpl; ring.
      + ring. }
  split; [exact E|].
  intro A. rewrite E. f_equal. unfold bucket_sum.
  rewrite big_sum_zero; [ring|].
  intros i Hi.
  destruct (cell (f_ranks pivot risk_free F) t i) as [r|] eqn:R;
    [|reflexivity].
  rewrite (proj2 (Qcleb_true r Qc_five) (A i r Hi R)). reflexivity.
Qed.

Lemma daily_return_is_short_only_witness :
  at_ (portfolio (Sample.prices 3 12) (Sample.rf 12) 5 5) 5 = Some 0.
Proof.
  apply (daily_return_is_short_only (Sample.prices 3 12) (Sample.rf 12) 5 5 5).
  - simpl; tauto.
  - simpl; tauto.
  - simpl; lia.
  - intros i r Hi Hr. simpl in Hi.
    assert (R : row_at (f_ranks (Sample.prices 3 12) (Sample.rf 12) 5) 5
                = [Sample.q 3 1; Sample.q 2 1; Sample.q 1 1]) by by_eval.
    unfold cell in Hr. rewrite R in Hr.
    destruct i as [|[|[|i]]]; [| | |lia];
      injection Hr as <-; apply Qcleb_true; vm_compute; reflexivity.
Defined.

(** X11.  For each formation window of the strategies and every date of the
    index, the long bucket holds at most 9 tickers, and at most 5 on a date
    whose formation returns are pairwise different. *)
Theorem long_bucket_size (pivot : DataFrame) (risk_free : Series)
        (F t : nat) :
  In F [5; 30; 90]%nat -> (t < length pivot)%nat ->
  (bucket_size (mask_at (long_mask (f_ranks pivot risk_free F)) t)
               (ncols pivot) <= 9)%nat /\
  (NoDup (present (row_at (dict_at (form pivot risk_free) F) t)) ->
   (bucket_size (mask_at (long_mask (f_ranks pivot risk_free F)) t)
                (ncols pivot) <= 5)%nat).
Proof.
  intros IF Ht.
  set (r := row_at (dict_at (form pivot risk_free) F) t).
  assert (Lr : length r = ncols pivot).
  { unfold r. rewrite form_at by (simpl in *; intuition).
    now apply formation_row_length. }
  assert (E : bucket_size (mask_at (long_mask (f_ranks pivot risk_free F)) t)
                          (ncols pivot)
              = length (filter (fun x => Qcleb (average_rank (present r) x)
                                               Qc_five) (present r))).
  { unfold bucket_size. rewrite <- Lr.
    rewrite (filter_ext _
               (fun i => match nth i r NaN with
                         | Some x => Qcleb (average_rank (present r) x) Qc_five
                         | None => false
                         end)).
    - rewrite (filter_positions
                 (fun v => match v with
                           | Some x => Qcleb (average_rank (present r) x) Qc_five
                           | None => false
                           end)).
      apply filter_present.
    - intro i. rewrite long_mask_at, f_ranks_cell. fold r.
      unfold cell. fold r. unfold at_.
      now destruct (nth i r NaN). }
  rewrite E. apply top_five_size.
Qed.

Lemma long_bucket_size_witness :
  (bucket_size
     (mask_at (long_mask (f_ranks (Sample.prices 8 12) (Sample.rf 12) 5)) 5) 8
   <= 9)%nat.
Proof.
  apply (long_bucket_size (Sample.prices 8 12) (Sample.rf 12) 5 5).
  - simpl; tauto.
  - simpl; lia.
Defined.

(** Nine tied tickers all get rank 5 and all enter the long bucket. *)
Lemma long_bucket_of_nine_tied :
  bucket_size
    (mask_at (long_mask
                (f_ranks (Sample.table (repeat 1%nat 9) 6) (Sample.rf 6) 5)) 5)
    9 = 9%nat.
Proof. vm_compute. reflexivity. Qed.

(** ** Cumulative returns and outputs *)

Section Edges.

Variables (pivot : DataFrame) (risk_free : Series).



Lemma portfolio_present (F H t : nat) :
  In F [5; 30; 90]%nat -> In H [5; 60; 120]%nat -> (t < length pivot)%nat ->
  at_ (portfolio pivot risk_free F H) t
  = Some (val0 (at_ (portfolio pivot risk_free F H) t)).
Proof. intros IF IH Ht. now rewrite portfolio_at. Qed.

End Edges.





(** ** The summary table *)

Section Statistics.

Lemma Qcmin_le_left (a y : Qc) : Qcmin a y <= a.
Proof.
  unfold Qcmin. destruct (Qcleb a y) eqn:E; [apply Qcle_refl|].
  apply Qclt_le_weak. apply Qcnot_le_lt. intro C.
  apply Qcleb_true in C. congruence.
Qed.

Lemma Qcmin_le_right (a y : Qc) : Qcmin a y <= y.
Proof.
  unfold Qcmin. destruct (Qcleb a y) eqn:E; [now apply Qcleb_true|].
  apply Qcle_refl.
Qed.

Lemma Qcmax_ge_left (a y : Qc) : a <= Qcmax a y.
Proof.
  unfold Qcmax. destruct (Qcleb a y) eqn:E; [now apply Qcleb_true|].
  apply Qcle_refl.
Qed.

Lemma Qcmax_ge_right (a y : Qc) : y <= Qcmax a y.
Proof.
  unfold Qcmax. destruct (Qcleb a y) eqn:E; [apply Qcle_refl|].
  apply Qclt_le_weak. apply Qcnot_le_lt. intro C.
  apply Qcleb_true in C. congruence.
Qed.

Lemma fold_min_lower (l : list Qc) (a : Qc) :
  fold_left Qcmin l a <= a /\ forall y, In y l -> fold_left Qcmin l a <= y.
Proof.
  revert a; induction l as [|b l IH]; intro a; simpl.
  - split; [apply Qcle_refl|contradiction].
  - destruct (IH (Qcmin a b)) as [H1 H2]. split.
    + apply (Qcle_trans _ _ _ H1). apply Qcmin_le_left.
    + intros y [<-|Hy]; [|now apply H2].
      apply (Qcle_trans _ _ _ H1). apply Qcmin_le_right.
Qed.

Lemma fold_max_upper (l : list Qc) (a : Qc) :
  a <= fold_left Qcmax l a /\ forall y, In y l -> y <= fold_left Qcmax l a.
Proof.
  revert a; induction l as [|b l IH]; intro a; simpl.
  - split; [apply Qcle_refl|contradiction].
  - destruct (IH (Qcmax a b)) as [H1 H2]. split.
    + apply (Qcle_trans _ (Qcmax a b)); [apply Qcmax_ge_left|exact H1].
    + intros y [->|Hy]; [|now apply H2].
      apply (Qcle_trans _ (Qcmax a y)); [apply Qcmax_ge_right|exact H1].
Qed.

Lemma fold_max_attained (l : list Qc) (a : Qc) :
  fold_left Qcmax l a = a \/ In (fold_left Qcmax l a) l.
Proof.
  revert a; induction l as [|b l IH]; intro a; simpl; [now left|].
  destruct (IH (Qcmax a b)) as [E|I]; [|now right; right].
  rewrite E. unfold Qcmax. destruct (Qcleb a b); [right; now left|now left].
Qed.

Lemma vmax_upper (s : list val) (m : Qc) :
  vmax s = Some m ->
  In (Some m) s /\ forall y, In (Some y) s -> y <= m.
Proof.
  unfold vmax. intro H.
  assert (P : forall y, In (Some y) s <-> In y (present s))
    by (intro y; symmetry; apply in_present).
  destruct (present s) as [|a l]; [discriminate|].
  injection H as <-. destruct (fold_max_upper l a) as [U1 U2]. split.
  - apply P. destruct (fold_max_attained l a) as [E|I].
    + rewrite E. now left.
    + now right.
  - intros y Hy. apply P in Hy. destruct Hy as [<-|Hy]; auto.
Qed.

Lemma vmin_lower (s : list val) (m : Qc) :
  vmin s = Some m -> forall y, In (Some y) s -> m <= y.
Proof.
  unfold vmin. intros H y Hy. apply in_present in Hy.
  destruct (present s) as [|a l]; [discriminate|].
  injection H as <-. destruct (fold_min_lower l a) as [L1 L2].
  destruct Hy as [<-|Hy]; auto.
Qed.

Lemma nat2Qc_positive (n : nat) : (0 < n)%nat -> 0 < nat2Qc n.
Proof.
  intro H. unfold Qclt, nat2Qc, Q2Qc. cbn [this]. rewrite !Qred_correct.
  unfold Qlt, inject_Z. cbn [Qnum Qden]. lia.
Qed.

Lemma sum_lower (l : list Qc) (lo : Qc) :
  (forall y, In y l -> lo <= y) -> lo * nat2Qc (length l) <= Qcsum l.
Proof.
  induction l as [|a l IH]; intro H.
  - unfold Qcsum. simpl. replace (lo * nat2Qc 0) with 0; [apply Qcle_refl|].
    replace (nat2Qc 0) with 0; [ring|]. apply Qceqb_true. vm_compute.
    reflexivity.
  - cbn [length]. rewrite Qcsum_cons, nat2Qc_S.
    replace (lo * (nat2Qc (length l) + 1)) with (lo + lo * nat2Qc (length l))
      by ring.
    apply Qcplus_le_compat.
    + apply H. now left.
    + apply IH. intros y Hy. apply H. now right.
Qed.

Lemma sum_upper (l : list Qc) (hi : Qc) :
  (forall y, In y l -> y <= hi) -> Qcsum l <= hi * nat2Qc (length l).
Proof.
  induction l as [|a l IH]; intro H.
  - unfold Qcsum. simpl. replace (hi * nat2Qc 0) with 0; [apply Qcle_refl|].
    replace (nat2Qc 0) with 0; [ring|]. apply Qceqb_true. vm_compute.
    reflexivity.
  - cbn [length]. rewrite Qcsum_cons, nat2Qc_S.
    replace (hi * (nat2Qc (length l) + 1)) with (hi + hi * nat2Qc (length l))
      by ring.
    apply Qcplus_le_compat.
    + apply H. now left.
    + apply IH. intros y Hy. apply H. now right.
Qed.

(** A series without a missing value lists its values. *)
Lemma present_of_full (s : Series) :
  (forall t, (t < length s)%nat -> at_ s t <> None) ->
  s = map Some (present s).
Proof.
  induction s as [|v s IH]; intro H; [reflexivity|].
  assert (H0 := H O ltac:(simpl; lia)). unfold at_ in H0. simpl in H0.
  destruct v as [x|]; [|congruence].
  change (present (Some x :: s)) with (x :: present s). cbn [map].
  f_equal. apply IH. intros t Ht. apply (H (S t)). simpl; lia.
Qed.

(** Minimum, average and maximum of a non-empty series without a missing
    value. *)
Lemma series_statistics (s : Series) :
  s <> [] ->
  (forall t, (t < length s)%nat -> at_ s t <> None) ->
  exists mn av mx,
    vmin s = Some mn /\ np_average s = Some av /\ vmax s = Some mx /\
    mn <= av /\ av <= mx.
Proof.
  intros Ne Full. assert (E := present_of_full s Full).
  assert (L : length (present s) = length s).
  { rewrite E at 2. now rewrite length_map. }
  assert (Np : present s <> []).
  { intro Z. rewrite Z in L. destruct s; [congruence|discriminate]. }
  assert (Pos : 0 < nat2Qc (length s)).
  { apply nat2Qc_positive. destruct s; [congruence|simpl; lia]. }
  assert (Nz : nat2Qc (length s) <> 0).
  { intro Z. rewrite Z in Pos. now apply Qclt_not_eq in Pos. }
  destruct (vmin s) as [mn|] eqn:Emin;
    [|unfold vmin in Emin; destruct (present s); [congruence|discriminate]].
  destruct (vmax s) as [mx|] eqn:Emax;
    [|unfold vmax in Emax; destruct (present s); [congruence|discriminate]].
  exists mn, (Qcsum (present s) / nat2Qc (length s)), mx.
  split; [reflexivity|]. split; [|split; [reflexivity|]].
  - unfold np_average. rewrite L, Nat.eqb_refl.
    destruct (Nat.eqb_spec (length s) 0) as [Z|Z]; [|reflexivity].
    destruct s; [congruence|discriminate].
  - split.
    + apply (Qcmult_lt_0_le_reg_r _ _ (nat2Qc (length s)) Pos).
      replace (Qcsum (present s) / nat2Qc (length s) * nat2Qc (length s))
        with (Qcsum (present s)) by (field; exact Nz).
      rewrite <- L. apply sum_lower.
      intros y Hy. apply (vmin_lower s mn Emin). now apply in_present.
    + apply (Qcmult_lt_0_le_reg_r _ _ (nat2Qc (length s)) Pos).
      replace (Qcsum (present s) / nat2Qc (length s) * nat2Qc (length s))
        with (Qcsum (present s)) by (field; exact Nz).
      rewrite <- L. apply sum_upper.
      intros y Hy. apply (vmax_upper s mx Emax). now apply in_present.
Qed.

Lemma portfolio_statistics (pivot : DataFrame) (risk_free : Series)
      (F H : nat) :
  In F [5; 30; 90]%nat -> In H [5; 60; 120]%nat -> pivot <> [] ->
  exists mn av mx,
    vmin (portfolio pivot risk_free F H) = Some mn /\
    np_average (portfolio pivot risk_free F H) = Some av /\
    vmax (portfolio pivot risk_free F H) = Some mx /\
    mn <= av /\ av <= mx.
Proof.
  intros IF IH Ne.
  assert (L := portfolio_length pivot risk_free F H IF IH).
  apply series_statistics.
  - intro Z. rewrite Z in L. destruct pivot; [congruence|discriminate].
  - intros t Ht. rewrite L in Ht.
    rewrite portfolio_present by assumption. discriminate.
Qed.

Lemma form_of_empty_index (risk_free : Series) (F : nat) :
  dict_at (form [] risk_free) F = [].
Proof.
  unfold dict_at. destruct (dict_get (form [] risk_free) F) as [df|] eqn:E;
    [|reflexivity].
  apply dict_get_map in E. destruct E as [_ ->]. reflexivity.
Qed.

Lemma portfolio_of_empty_index (risk_free : Series) (F H : nat) :
  portfolio [] risk_free F H = [].
Proof.
  unfold portfolio, long_short, f_ranks.
  rewrite form_of_empty_index.
  unfold series_add, apply_axis1, df_where, long_mask, df_le_const,
    rank_axis1.
  cbn [map].
  destruct (dict_at (hpr [] risk_free) H); reflexivity.
Qed.


End Statistics.



(** X15.  Over a non-empty date index the value printed as the best
    performer is the average daily return of one of the nine strategies and
    no strategy has a larger average; over an empty date index it is
    missing. *)
Theorem best_performer_is_the_top_average (pivot : DataFrame)
        (snp_prices risk_free : Series) :
  (pivot <> [] ->
   exists b,
     best_performer pivot snp_prices risk_free = Some b /\
     (exists k, (k < 9)%nat /\
        nth k (port_avg_rets (port_perform pivot snp_prices risk_free)) NaN
        = Some b) /\
     (forall k a,
        nth k (port_avg_rets (port_perform pivot snp_prices risk_free)) NaN
        = Some a -> a <= b)) /\
  (pivot = [] -> best_performer pivot snp_prices risk_free = None).
Proof.
  unfold best_performer, port_perform. cbn [port_avg_rets].
  set (A := avg_rets pivot risk_free).
  assert (L : length A = 9%nat) by reflexivity.
  split.
  - intro Ne.
    destruct (portfolio_statistics pivot risk_free 5 5) as [mn [av [mx [_ [Ea _]]]]];
      [simpl; tauto|simpl; tauto|assumption|].
    assert (I0 : In (Some av) A) by (left; exact Ea).
    destruct (vmax A) as [b|] eqn:Eb.
    + destruct (vmax_upper A b Eb) as [Ib Ub].
      exists b. split; [reflexivity|]. split.
      * destruct (In_nth _ _ NaN Ib) as [k [Hk Ek]].
        exists k. split; [lia|exact Ek].
      * intros k a Ha. apply Ub. now apply (at_in A k).
    + exfalso. unfold vmax in Eb. apply in_present in I0.
      destruct (present A); [contradiction|discriminate].
  - intros ->. unfold A, avg_rets, portfolios, f5hpr5, f5hpr60, f5hpr120,
      f30hpr5, f30hpr60, f30hpr120, f90hpr5, f90hpr60, f90hpr120.
    rewrite !portfolio_of_empty_index. reflexivity.
Qed.

Lemma best_performer_is_the_top_average_witness :
  exists b,
    best_performer (Sample.prices 8 12) (Sample.snp 12) (Sample.rf 12) = Some b /\
    forall k a,
      nth k (port_avg_rets (port_perform (Sample.prices 8 12) (Sample.snp 12)
                                         (Sample.rf 12))) NaN = Some a ->
      a <= b.
Proof.
  destruct (best_performer_is_the_top_average (Sample.prices 8 12)
              (Sample.snp 12) (Sample.rf 12)) as [H _].
  destruct H as [b [Eb [_ Ub]]]; [discriminate|].
  exists b. split; assumption.
Defined.

(** ** Few tickers *)

Section FewTickers.

Variables (pivot : DataFrame) (risk_free : Series).



End FewTickers.


